(** * bedrock_chat.py: the conversation client, embedded and verified

    The program is a single Python module: two constant tables
    ([COMMAND_HELP], [ROLE_PROMPTS]), the class [BedrockChat] and the
    command loop [main].  The embedding follows the module top to bottom,
    after the two library modules it leans on ([json] and the [str]
    methods).

    Conventions of the embedding.
    - A Python [str] is represented by its UTF-8 encoding, a Rocq [string];
      a file opened with [encoding='utf-8'] holds the same bytes.  Strings
      with no UTF-8 encoding (lone surrogates) are not represented.
    - A Python value that can sit in the history or in a decoded response is
      a [pyval].  Floats are not part of [pyval]; the two float literals of
      the request body are kept as rationals.
    - Exceptions are values of [exn]; a statement sequence is a computation
      in the monad [M], which threads the [world] and stops at a raise
      keeping the mutations made so far, as Python does.
    - The limits of the interpreter (recursion depth, digits of an integer)
      are not modelled. *)

Set Warnings "-register-all".

From Stdlib Require Import ZArith QArith.QArith_base Ascii String List Bool Lia.
From Stdlib Require Import DecimalFacts DecimalPos DecimalZ.
From stdpp Require Import base option list strings gmap.

Local Open Scope Z_scope.
Local Open Scope string_scope.
Local Open Scope list_scope.

(** ** Python values *)

Inductive pyval : Type :=
| PNone
| PBool (b : bool)
| PInt (z : Z)
| PStr (s : string)
| PList (l : list pyval)
| PDict (d : list (string * pyval)).

(** File contents and response bodies: a sequence of bytes. *)
Abbreviation text := (list ascii).

Definition text_of (s : string) : text := list_ascii_of_string s.

(** A dict is kept in insertion order.  [dict_get] is [d[k]] without the
    raise, [dict_set] is [d[k] = v]: an existing key keeps its position. *)
Fixpoint dict_get {A} (d : list (string * A)) (k : string) : option A :=
  match d with
  | [] => None
  | (k', v) :: d' => if String.eqb k' k then Some v else dict_get d' k
  end.

Fixpoint dict_set {A} (d : list (string * A)) (k : string) (v : A)
  : list (string * A) :=
  match d with
  | [] => [(k, v)]
  | (k', v') :: d' =>
      if String.eqb k' k then (k', v) :: d' else (k', v') :: dict_set d' k v
  end.

Definition dict_keys {A} (d : list (string * A)) : list string := map fst d.

Definition dict_has {A} (d : list (string * A)) (k : string) : bool :=
  match dict_get d k with Some _ => true | None => false end.

(** The representation invariant of a Python value: the keys of every dict
    are distinct. *)
Fixpoint nodup_keys (ks : list string) : bool :=
  match ks with
  | [] => true
  | k :: ks' => negb (existsb (String.eqb k) ks') && nodup_keys ks'
  end.

Fixpoint pyval_wf (v : pyval) : bool :=
  match v with
  | PList l => forallb pyval_wf l
  | PDict d => nodup_keys (map fst d) && forallb (fun kv => pyval_wf (snd kv)) d
  | _ => true
  end.

(** ** The [json] module of the Python standard library

    [save_conversation], [load_conversation] and [get_response] go through
    [json.dump] and [json.load]/[json.loads].  The encoder below is the
    library's with [ensure_ascii=False, indent=2], the decoder is its
    scanner in strict mode.  A float literal ([1.5], [1e3], [NaN],
    [Infinity]) has no [pyval]: the decoder below refuses it, where the
    library would build a float. *)
Module JSON.

Definition chr (n : N) : ascii := ascii_of_N n.
Definition ord (c : ascii) : N := N_of_ascii c.

Definition hex_digit (n : N) : ascii :=
  if (n <? 10)%N then chr (48 + n) else chr (87 + n).

(** [ESCAPE_DCT]: the two-character escapes, and [\u00xx] for the other
    characters below 0x20.  Everything else is written as it is. *)
Definition escape_char (c : ascii) : text :=
  if Ascii.eqb c "034" then ["\"; "034"]%char
  else if Ascii.eqb c "\" then ["\"; "\"]%char
  else if Ascii.eqb c "010" then ["\"; "n"]%char
  else if Ascii.eqb c "013" then ["\"; "r"]%char
  else if Ascii.eqb c "009" then ["\"; "t"]%char
  else if Ascii.eqb c "008" then ["\"; "b"]%char
  else if Ascii.eqb c "012" then ["\"; "f"]%char
  else if (ord c <? 32)%N
       then ["\"; "u"; "0"; "0"; hex_digit (ord c / 16); hex_digit (ord c mod 16)]%char
  else [c].

Definition encode_basestring (s : string) : text :=
  "034"%char :: flat_map escape_char (text_of s) ++ ["034"%char].

Fixpoint uint_chars (d : Decimal.uint) : text :=
  match d with
  | Decimal.Nil => []
  | Decimal.D0 d => "0"%char :: uint_chars d
  | Decimal.D1 d => "1"%char :: uint_chars d
  | Decimal.D2 d => "2"%char :: uint_chars d
  | Decimal.D3 d => "3"%char :: uint_chars d
  | Decimal.D4 d => "4"%char :: uint_chars d
  | Decimal.D5 d => "5"%char :: uint_chars d
  | Decimal.D6 d => "6"%char :: uint_chars d
  | Decimal.D7 d => "7"%char :: uint_chars d
  | Decimal.D8 d => "8"%char :: uint_chars d
  | Decimal.D9 d => "9"%char :: uint_chars d
  end.

(** [int.__repr__] *)
Definition int_repr (z : Z) : text :=
  match Z.to_int z with
  | Decimal.Pos d => uint_chars d
  | Decimal.Neg d => "-"%char :: uint_chars d
  end.

(** ['\n' + '  ' * level] *)
Definition newline_indent (level : nat) : text :=
  "010"%char :: concat (replicate level [" "; " "]%char).

(** [_iterencode] with [indent=2]: item separator [','] followed by the
    newline and indentation, key separator [': ']. *)
Fixpoint iterencode (level : nat) (o : pyval) : text :=
  match o with
  | PNone => text_of "null"
  | PBool true => text_of "true"
  | PBool false => text_of "false"
  | PInt z => int_repr z
  | PStr s => encode_basestring s
  | PList [] => text_of "[]"
  | PList (x :: xs) =>
      "["%char :: newline_indent (S level) ++ iterencode (S level) x
        ++ flat_map (fun y => ","%char :: newline_indent (S level)
                                ++ iterencode (S level) y) xs
        ++ newline_indent level ++ ["]"%char]
  | PDict [] => text_of "{}"
  | PDict ((k, x) :: kxs) =>
      "{"%char :: newline_indent (S level)
        ++ encode_basestring k ++ [":"; " "]%char ++ iterencode (S level) x
        ++ flat_map (fun ky => ","%char :: newline_indent (S level)
                                 ++ encode_basestring (fst ky) ++ [":"; " "]%char
                                 ++ iterencode (S level) (snd ky)) kxs
        ++ newline_indent level ++ ["}"%char]
  end.

Definition dumps (o : pyval) : text := iterencode 0 o.


(** *** The scanner *)

(** [WHITESPACE]: space, tab, newline, carriage return. *)
Definition is_ws (c : ascii) : bool :=
  Ascii.eqb c " " || Ascii.eqb c "009" || Ascii.eqb c "010" || Ascii.eqb c "013".

Fixpoint skip_ws (s : text) : text :=
  match s with
  | c :: r => if is_ws c then skip_ws r else s
  | [] => []
  end.

Definition hex_val (c : ascii) : option N :=
  let n := ord c in
  if (48 <=? n)%N && (n <=? 57)%N then Some (n - 48)%N
  else if (97 <=? n)%N && (n <=? 102)%N then Some (n - 87)%N
  else if (65 <=? n)%N && (n <=? 70)%N then Some (n - 55)%N
  else None.

(** The four hex digits of a [\uXXXX] escape. *)
Definition hex4 (a b c d : ascii) : option N :=
  match hex_val a, hex_val b, hex_val c, hex_val d with
  | Some x, Some y, Some z, Some w => Some (((x * 16 + y) * 16 + z) * 16 + w)%N
  | _, _, _, _ => None
  end.

(** The UTF-8 encoding of a code point (a lone surrogate is written in
    the same three-byte form). *)
Definition utf8_encode (cp : N) : text :=
  if (cp <? 128)%N then [chr cp]
  else if (cp <? 2048)%N then [chr (192 + cp / 64); chr (128 + cp mod 64)]
  else if (cp <? 65536)%N then
    [chr (224 + cp / 4096); chr (128 + (cp / 64) mod 64); chr (128 + cp mod 64)]
  else
    [chr (240 + cp / 262144); chr (128 + (cp / 4096) mod 64);
     chr (128 + (cp / 64) mod 64); chr (128 + cp mod 64)].

Definition is_high_surrogate (cp : N) : bool := (55296 <=? cp)%N && (cp <=? 56319)%N.
Definition is_low_surrogate (cp : N) : bool := (56320 <=? cp)%N && (cp <=? 57343)%N.
Definition join_surrogates (hi lo : N) : N :=
  (65536 + (hi - 55296) * 1024 + (lo - 56320))%N.

(** [BACKSLASH]: the one-character escapes. *)
Definition backslash (c : ascii) : option ascii :=
  if Ascii.eqb c "034" then Some "034"%char
  else if Ascii.eqb c "\" then Some "\"%char
  else if Ascii.eqb c "/" then Some "/"%char
  else if Ascii.eqb c "b" then Some "008"%char
  else if Ascii.eqb c "f" then Some "012"%char
  else if Ascii.eqb c "n" then Some "010"%char
  else if Ascii.eqb c "r" then Some "013"%char
  else if Ascii.eqb c "t" then Some "009"%char
  else None.

(** [scanstring] in strict mode, started after the opening quote: the
    decoded string and the text after the closing quote. *)
Fixpoint scanstring (s : text) : option (text * text) :=
  match s with
  | [] => None
  | c :: r =>
      if Ascii.eqb c "034" then Some ([], r)
      else if Ascii.eqb c "\" then
        match r with
        | [] => None
        | e :: r1 =>
            if Ascii.eqb e "u" then
              match r1 with
              | h1 :: h2 :: h3 :: h4 :: r2 =>
                  match hex4 h1 h2 h3 h4 with
                  | None => None
                  | Some cp =>
                      let plain :=
                        match scanstring r2 with
                        | Some (t, rest) => Some (utf8_encode cp ++ t, rest)
                        | None => None
                        end in
                      if is_high_surrogate cp then
                        match r2 with
                        | b :: u :: l1 :: l2 :: l3 :: l4 :: ((_ :: _) as r3) =>
                            if Ascii.eqb b "\" && Ascii.eqb u "u" then
                              match hex4 l1 l2 l3 l4 with
                              | None => None
                              | Some lo =>
                                  if is_low_surrogate lo then
                                    match scanstring r3 with
                                    | Some (t, rest) =>
                                        Some (utf8_encode (join_surrogates cp lo) ++ t, rest)
                                    | None => None
                                    end
                                  else plain
                              end
                            else plain
                        | _ => plain
                        end
                      else plain
                  end
              | _ => None
              end
            else
              match backslash e with
              | None => None
              | Some ch =>
                  match scanstring r1 with
                  | Some (t, rest) => Some (ch :: t, rest)
                  | None => None
                  end
              end
        end
      else if (ord c <? 32)%N then None
      else
        match scanstring r with
        | Some (t, rest) => Some (c :: t, rest)
        | None => None
        end
  end.

Definition digit_of (c : ascii) : option (Decimal.uint -> Decimal.uint) :=
  if Ascii.eqb c "0" then Some Decimal.D0
  else if Ascii.eqb c "1" then Some Decimal.D1
  else if Ascii.eqb c "2" then Some Decimal.D2
  else if Ascii.eqb c "3" then Some Decimal.D3
  else if Ascii.eqb c "4" then Some Decimal.D4
  else if Ascii.eqb c "5" then Some Decimal.D5
  else if Ascii.eqb c "6" then Some Decimal.D6
  else if Ascii.eqb c "7" then Some Decimal.D7
  else if Ascii.eqb c "8" then Some Decimal.D8
  else if Ascii.eqb c "9" then Some Decimal.D9
  else None.

Definition is_digit (c : ascii) : bool :=
  match digit_of c with Some _ => true | None => false end.

Fixpoint scan_digits (s : text) : Decimal.uint * text :=
  match s with
  | [] => (Decimal.Nil, [])
  | c :: r =>
      match digit_of c with
      | Some D => let '(d, r') := scan_digits r in (D d, r')
      | None => (Decimal.Nil, s)
      end
  end.

(** The integer part of a number, [0|[1-9][0-9]*]. *)
Definition scan_int_part (s : text) : option (Decimal.uint * text) :=
  match s with
  | [] => None
  | c :: r =>
      if Ascii.eqb c "0" then Some (Decimal.D0 Decimal.Nil, r)
      else if is_digit c then Some (scan_digits s)
      else None
  end.

(** What makes the number a float: a fraction [.d] or an exponent
    [e], [e+], [e-] followed by a digit. *)
Definition float_follows (s : text) : bool :=
  match s with
  | c :: d :: r =>
      if Ascii.eqb c "." then is_digit d
      else if Ascii.eqb c "e" || Ascii.eqb c "E" then
        if Ascii.eqb d "+" || Ascii.eqb d "-"
        then match r with x :: _ => is_digit x | [] => false end
        else is_digit d
      else false
  | _ => false
  end.

(** [_match_number]: an int is read with [int()]; a float is refused. *)
Definition match_number (s : text) : option (pyval * text) :=
  match s with
  | c :: r =>
      if Ascii.eqb c "-" then
        match scan_int_part r with
        | Some (d, r') =>
            if float_follows r' then None
            else Some (PInt (Z.of_int (Decimal.Neg d)), r')
        | None => None
        end
      else
        match scan_int_part s with
        | Some (d, r') =>
            if float_follows r' then None
            else Some (PInt (Z.of_int (Decimal.Pos d)), r')
        | None => None
        end
  | [] => None
  end.

(** [dict(pairs)] as the scanner builds it: a repeated key keeps its
    first position and takes the last value. *)
Definition dict_of_pairs (pairs : list (string * pyval)) : list (string * pyval) :=
  fold_left (fun d kv => dict_set d (fst kv) (snd kv)) pairs [].

(** [scan_once], [JSONArray] and [JSONObject].  The first argument bounds
    the number of nested calls; [loads] gives enough for any text. *)
Fixpoint scan_once (n : nat) (s : text) : option (pyval * text) :=
  match n with
  | O => None
  | S n' =>
      match s with
      | [] => None
      | c :: r =>
          if Ascii.eqb c "034" then
            match scanstring r with
            | Some (t, r') => Some (PStr (string_of_list_ascii t), r')
            | None => None
            end
          else if Ascii.eqb c "{" then
            match skip_ws r with
            | c' :: r' =>
                if Ascii.eqb c' "}" then Some (PDict [], r')
                else
                  match object_items n' (c' :: r') with
                  | Some (pairs, r'') => Some (PDict (dict_of_pairs pairs), r'')
                  | None => None
                  end
            | [] => None
            end
          else if Ascii.eqb c "[" then
            match skip_ws r with
            | c' :: r' =>
                if Ascii.eqb c' "]" then Some (PList [], r')
                else
                  match array_items n' (c' :: r') with
                  | Some (values, r'') => Some (PList values, r'')
                  | None => None
                  end
            | [] => None
            end
          else
            match s with
            | "n" :: "u" :: "l" :: "l" :: r' => Some (PNone, r')
            | "t" :: "r" :: "u" :: "e" :: r' => Some (PBool true, r')
            | "f" :: "a" :: "l" :: "s" :: "e" :: r' => Some (PBool false, r')
            | _ => match_number s
            end%char
      end
  end
with array_items (n : nat) (s : text) : option (list pyval * text) :=
  match n with
  | O => None
  | S n' =>
      match scan_once n' s with
      | Some (v, r) =>
          match skip_ws r with
          | c :: r' =>
              if Ascii.eqb c "]" then Some ([v], r')
              else if Ascii.eqb c "," then
                match array_items n' (skip_ws r') with
                | Some (vs, r'') => Some (v :: vs, r'')
                | None => None
                end
              else None
          | [] => None
          end
      | None => None
      end
  end
with object_items (n : nat) (s : text) : option (list (string * pyval) * text) :=
  match n with
  | O => None
  | S n' =>
      match s with
      | c :: r =>
          if Ascii.eqb c "034" then
            match scanstring r with
            | Some (k, r1) =>
                match skip_ws r1 with
                | c1 :: r2 =>
                    if Ascii.eqb c1 ":" then
                      match scan_once n' (skip_ws r2) with
                      | Some (v, r3) =>
                          match skip_ws r3 with
                          | c2 :: r4 =>
                              if Ascii.eqb c2 "}"
                              then Some ([(string_of_list_ascii k, v)], r4)
                              else if Ascii.eqb c2 "," then
                                match object_items n' (skip_ws r4) with
                                | Some (kvs, r5) =>
                                    Some ((string_of_list_ascii k, v) :: kvs, r5)
                                | None => None
                                end
                              else None
                          | [] => None
                          end
                      | None => None
                      end
                    else None
                | [] => None
                end
            | None => None
            end
          else None
      | [] => None
      end
  end.

(** [json.loads]: leading whitespace, one value, trailing whitespace and
    nothing else.  [None] is the [JSONDecodeError]. *)
Definition loads (s : text) : option pyval :=
  match scan_once (S (length s)) (skip_ws s) with
  | Some (v, r) => match skip_ws r with [] => Some v | _ :: _ => None end
  | None => None
  end.

End JSON.

(** ** Strings: the [str] methods the program calls *)
Module Str.

Definition nl : string := String "010" "".

(** [str.lower], on the ASCII letters.  Outside ASCII, [str.lower] yields
    an ASCII letter for two characters only: U+212A gives [k], and U+0130
    gives [i] followed by U+0307.  The program compares the result with
    ASCII command words that have no [k], so each of its comparisons comes
    out as with the library. *)
Definition lower_char (c : ascii) : ascii :=
  let n := N_of_ascii c in
  if (65 <=? n)%N && (n <=? 90)%N then ascii_of_N (n + 32) else c.

Fixpoint lower (s : string) : string :=
  match s with
  | EmptyString => EmptyString
  | String c s' => String (lower_char c) (lower s')
  end.

Fixpoint is_prefix (p s : text) : bool :=
  match p, s with
  | [], _ => true
  | a :: p', b :: s' => Ascii.eqb a b && is_prefix p' s'
  | _ :: _, [] => false
  end.

(** [str.startswith] *)
Definition startswith (s p : string) : bool := is_prefix (text_of p) (text_of s).

Definition bytes (l : list N) : text := map ascii_of_N l.

(** The characters for which [str.isspace] holds, in UTF-8: U+0009 to
    U+000D, U+001C to U+0020, U+0085, U+00A0, U+1680, U+2000 to U+200A,
    U+2028, U+2029, U+202F, U+205F, U+3000. *)
Definition whitespace : list text :=
  map bytes
    [[9]; [10]; [11]; [12]; [13]; [28]; [29]; [30]; [31]; [32];
     [194; 133]; [194; 160]; [225; 154; 128];
     [226; 128; 128]; [226; 128; 129]; [226; 128; 130]; [226; 128; 131];
     [226; 128; 132]; [226; 128; 133]; [226; 128; 134]; [226; 128; 135];
     [226; 128; 136]; [226; 128; 137]; [226; 128; 138];
     [226; 128; 168]; [226; 128; 169]; [226; 128; 175]; [226; 129; 159];
     [227; 128; 128]]%N.

(** The length of the whitespace character at the head of [s], if any. *)
Definition space_at (seqs : list text) (s : text) : option nat :=
  match filter (fun p => is_prefix p s) seqs with
  | p :: _ => Some (length p)
  | [] => None
  end.

Fixpoint lstrip_with (seqs : list text) (fuel : nat) (s : text) : text :=
  match fuel with
  | O => s
  | S fuel' =>
      match space_at seqs s with
      | Some k => lstrip_with seqs fuel' (drop k s)
      | None => s
      end
  end.

Definition lstrip (s : text) : text := lstrip_with whitespace (length s) s.
Definition rstrip (s : text) : text :=
  rev (lstrip_with (map (@rev ascii) whitespace) (length s) (rev s)).

(** [str.strip()] *)
Definition strip (s : string) : string :=
  string_of_list_ascii (rstrip (lstrip (text_of s))).

(** [str.split()]: the maximal runs of non-whitespace characters. *)
Fixpoint split_with (fuel : nat) (cur : text) (s : text) : list text :=
  match fuel with
  | O => []
  | S fuel' =>
      match s with
      | [] => match cur with [] => [] | _ => [rev cur] end
      | c :: r =>
          match space_at whitespace s with
          | Some k =>
              match cur with
              | [] => split_with fuel' [] (drop k s)
              | _ => rev cur :: split_with fuel' [] (drop k s)
              end
          | None => split_with fuel' (c :: cur) r
          end
      end
  end.

Definition split (s : string) : list string :=
  map string_of_list_ascii (split_with (S (length (text_of s))) [] (text_of s)).

(** The first [n] characters, [s[:n]]: a byte that continues a UTF-8
    sequence stays with the byte that starts it. *)
Definition is_continuation (c : ascii) : bool :=
  let n := N_of_ascii c in (128 <=? n)%N && (n <? 192)%N.

Fixpoint take_cont (s : text) : text :=
  match s with
  | c :: r => if is_continuation c then c :: take_cont r else []
  | [] => []
  end.

Fixpoint take_chars (n : nat) (s : text) : text :=
  match n, s with
  | O, _ => []
  | _, [] => []
  | S n', c :: r =>
      c :: take_cont r ++ take_chars n' (drop (length (take_cont r)) r)
  end.

Definition slice_to (n : nat) (s : string) : string :=
  string_of_list_ascii (take_chars n (text_of s)).

End Str.

(** ** Exceptions, the environment and the monad of statements *)

Inductive exn : Type :=
| KeyError
| IndexError
| TypeError
| AttributeError
| JSONDecodeError
| FileNotFoundError
| OSError            (* any other failure of [open]: a directory, a denied access *)
| EOFError
| ServiceError       (* what the service client raises: transport and API errors *)
| KeyboardInterrupt.

(** [except Exception] catches every exception of the program but
    [KeyboardInterrupt], which derives from [BaseException] only. *)
Definition is_Exception (e : exn) : bool :=
  match e with KeyboardInterrupt => false | _ => true end.

Definition is_FileNotFoundError (e : exn) : bool :=
  match e with FileNotFoundError => true | _ => false end.

Definition is_KeyboardInterrupt (e : exn) : bool :=
  match e with KeyboardInterrupt => true | _ => false end.

(** The dict that [get_response] passes to [json.dumps]. *)
Record request_body : Type := mkBody {
  anthropic_version : string;
  messages : list pyval;
  max_tokens : Z;
  temperature : Q;
  top_p : Q;
  top_k : Z;
  system : string
}.

(** The keyword arguments of [invoke_model]. *)
Record invoke_args : Type := mkInvoke {
  modelId : string;
  body : request_body;
  contentType : string;
  accept : string
}.

(** What a call of [invoke_model] and the reading of the response do: one
    of them raises (the client on a transport or service error, the reading
    when the response has no body), or the body is read as the given
    text. *)
Inductive invoke_result : Type :=
| InvokeRaises (e : exn)
| InvokeReturns (response_body : text).

(** What a path of the file system names.  A directory stands for every
    path that [open] refuses for another reason than absence. *)
Inductive node : Type :=
| File (data : text)
| Directory.

Inductive stdin_event : Type :=
| Line (s : string)     (* a line typed, without its newline *)
| Interrupt.            (* Ctrl-C while [input] waits *)

(** What the program does to the outside, in order. *)
Inductive event : Type :=
| Print (args : list pyval)               (* [print] of the arguments *)
| PrintExc (prefix : string) (e : exn)    (* [print] of the prefix and [str(e)] *)
| Prompt (s : string)                     (* the prompt written by [input] *)
| InvokeModel (a : invoke_args).          (* a request sent to the service *)

(** The attributes of an instance.  [bedrock_runtime], the client handle,
    has no state of its own: its calls are answered by the [service] of the
    world. *)
Record BedrockChat : Type := mkBedrockChat {
  conversation_history : pyval;
  model_id : string;
  current_role : string;
  available_commands : list (string * list (string * string))
}.

(** The state of the process and of what it talks to.  [clock] and
    [service] are the answers of the environment: the [n]-th reading of the
    time, and the outcome of the [n]-th request as a function of what is
    sent.  [stdin] is what remains to be read; at its end [input] meets the
    end of file. *)
Record world : Type := mkWorld {
  chat : BedrockChat;
  files : gmap string node;
  stdin : list stdin_event;
  clock : nat -> string;
  ticks : nat;
  service : nat -> invoke_args -> invoke_result;
  calls : nat;
  trace : list event
}.

Definition with_chat (c : BedrockChat) (w : world) : world :=
  mkWorld c (files w) (stdin w) (clock w) (ticks w) (service w) (calls w) (trace w).
Definition with_files (fs : gmap string node) (w : world) : world :=
  mkWorld (chat w) fs (stdin w) (clock w) (ticks w) (service w) (calls w) (trace w).
Definition with_stdin (i : list stdin_event) (w : world) : world :=
  mkWorld (chat w) (files w) i (clock w) (ticks w) (service w) (calls w) (trace w).
Definition with_ticks (n : nat) (w : world) : world :=
  mkWorld (chat w) (files w) (stdin w) (clock w) n (service w) (calls w) (trace w).
Definition with_calls (n : nat) (w : world) : world :=
  mkWorld (chat w) (files w) (stdin w) (clock w) (ticks w) (service w) n (trace w).
Definition with_trace (t : list event) (w : world) : world :=
  mkWorld (chat w) (files w) (stdin w) (clock w) (ticks w) (service w) (calls w) t.

Definition with_history (h : pyval) (c : BedrockChat) : BedrockChat :=
  mkBedrockChat h (model_id c) (current_role c) (available_commands c).
Definition with_role (r : string) (c : BedrockChat) : BedrockChat :=
  mkBedrockChat (conversation_history c) (model_id c) r (available_commands c).

(** A statement: it ends normally with a value or raises, and leaves a
    world either way. *)
Definition M (A : Type) : Type := world -> (exn + A) * world.

#[global] Instance M_ret : MRet M := fun A a w => (inr a, w).
#[global] Instance M_bind : MBind M := fun A B f m w =>
  match m w with
  | (inr a, w') => f a w'
  | (inl e, w') => (inl e, w')
  end.

Definition raise {A} (e : exn) : M A := fun w => (inl e, w).

(** [try: body except ...]: the first clause whose class matches handles
    the exception; the handlers are not themselves protected. *)
Fixpoint handle {A} (hs : list ((exn -> bool) * (exn -> M A))) (e : exn) : M A :=
  match hs with
  | [] => raise e
  | (catches, h) :: hs' => if catches e then h e else handle hs' e
  end.

Definition try_except {A} (body : M A) (hs : list ((exn -> bool) * (exn -> M A)))
  : M A :=
  fun w =>
    match body w with
    | (inl e, w') => handle hs e w'
    | r => r
    end.

Definition lift {A} (r : exn + A) : M A := fun w => (r, w).

Definition self : M BedrockChat := fun w => (inr (chat w), w).
Definition set_self (c : BedrockChat) : M unit := fun w => (inr tt, with_chat c w).

Definition emit (ev : event) : M unit :=
  fun w => (inr tt, with_trace (trace w ++ [ev]) w).

Definition print (args : list pyval) : M unit := emit (Print args).
Definition print_str (s : string) : M unit := print [PStr s].

Definition read_line : M string :=
  fun w =>
    match stdin w with
    | Line s :: rest => (inr s, with_stdin rest w)
    | Interrupt :: rest => (inl KeyboardInterrupt, with_stdin rest w)
    | [] => (inl EOFError, w)
    end.

(** [input(prompt)] *)
Definition input (prompt : string) : M string :=
  emit (Prompt prompt);; read_line.

(** [datetime.now().isoformat()] *)
Definition now_isoformat : M string :=
  fun w => (inr (clock w (ticks w)), with_ticks (S (ticks w)) w).

(** [self.bedrock_runtime.invoke_model(...)] followed by
    [response.get('body').read()]. *)
Definition call_service (a : invoke_args) : M text :=
  fun w =>
    let w' := with_calls (S (calls w)) w in
    match service w (calls w) a with
    | InvokeRaises e => (inl e, w')
    | InvokeReturns b => (inr b, w')
    end.

Definition invoke_model (a : invoke_args) : M text :=
  emit (InvokeModel a);; call_service a.

(** [open(filename, 'r', encoding='utf-8')] and [f.read()] *)
Definition read_file (filename : string) : M text :=
  fun w =>
    match files w !! filename with
    | None => (inl FileNotFoundError, w)
    | Some Directory => (inl OSError, w)
    | Some (File data) => (inr data, w)
    end.

(** [open(filename, 'w', encoding='utf-8')] and the writes until the file
    is closed: the file is created or replaced. *)
Definition write_file (filename : string) (data : text) : M unit :=
  fun w =>
    match files w !! filename with
    | Some Directory => (inl OSError, w)
    | _ => (inr tt, with_files (<[filename := File data]> (files w)) w)
    end.

(** [for x in l: body] *)
Fixpoint for_each {A} (l : list A) (body : A -> M unit) : M unit :=
  match l with
  | [] => mret tt
  | x :: l' => body x;; for_each l' body
  end.

(** [[f(x) for x in l]] *)
Fixpoint comprehension {A B} (f : A -> M B) (l : list A) : M (list B) :=
  match l with
  | [] => mret []
  | x :: l' => y ← f x; ys ← comprehension f l'; mret (y :: ys)
  end.

(** ** Subscripts and truth *)

(** [d[k]] on one of the module's tables. *)
Definition lookup_key {A} (d : list (string * A)) (k : string) : M A :=
  match dict_get d k with
  | Some v => mret v
  | None => raise KeyError
  end.

(** [v[k]] for a string [k]: only a dict takes it. *)
Definition getitem_str (v : pyval) (k : string) : exn + pyval :=
  match v with
  | PDict d => match dict_get d k with Some x => inr x | None => inl KeyError end
  | _ => inl TypeError
  end.

(** [v[0]]: the first element of a list, the first character of a string;
    a dict decoded from JSON has no integer key. *)
Definition getitem_0 (v : pyval) : exn + pyval :=
  match v with
  | PList (x :: _) => inr x
  | PList [] => inl IndexError
  | PStr EmptyString => inl IndexError
  | PStr s => inr (PStr (Str.slice_to 1 s))
  | PDict _ => inl KeyError
  | _ => inl TypeError
  end.

(** [bool(v)] *)
Definition truthy (v : pyval) : bool :=
  match v with
  | PNone => false
  | PBool b => b
  | PInt z => negb (Z.eqb z 0)
  | PStr s => negb (String.eqb s "")
  | PList l => match l with [] => false | _ => true end
  | PDict d => match d with [] => false | _ => true end
  end.

(** ** The module's tables *)

Definition COMMAND_HELP : list (string * list (string * string)) :=
  [("help",
     [("指令", "help");
      ("說明", "顯示所有可用指令的說明");
      ("使用方式", "直接輸入 'help' 或 'help 指令名稱'")]);
   ("quit",
     [("指令", "quit");
      ("說明", "結束對話並退出程式");
      ("使用方式", "直接輸入 'quit' 即可")]);
   ("clear",
     [("指令", "clear");
      ("說明", "清除當前的對話歷史記錄");
      ("使用方式", "直接輸入 'clear' 即可")]);
   ("save",
     [("指令", "save");
      ("說明", "將當前對話歷史儲存到檔案");
      ("使用方式", "直接輸入 'save' 即可，將儲存為 chat_history.json")]);
   ("load",
     [("指令", "load");
      ("說明", "從檔案載入之前儲存的對話歷史");
      ("使用方式", "直接輸入 'load' 即可，將從 chat_history.json 載入")]);
   ("role",
     [("指令", "role");
      ("說明", "查看並切換 AI 助手的角色");
      ("使用方式", "1. 輸入 'role' 查看可用角色
2. 根據提示輸入想要切換的角色名稱")])].
Definition ROLE_PROMPTS : list (string * string) :=
  [("default",
"You are Claude, an AI assistant created by Anthropic. 
                 You are helpful, harmless, and honest.");
   ("translator",
"You are a professional translator. 
                    Always maintain the original meaning while providing natural translations. 
                    When translating, consider cultural context and local expressions.
                    Please respond in the target language directly.");
   ("programmer",
"You are an experienced software developer.
                    Provide clear, well-documented code examples.
                    Focus on best practices and explain your reasoning.
                    Always include comments in Traditional Chinese.");
   ("teacher",
"You are a patient and knowledgeable teacher.
                 Break down complex concepts into simple terms.
                 Use examples and analogies to explain difficult topics.
                 Please respond in Traditional Chinese.");
   ("business_analyst",
"You are a business analysis expert.
                         Provide detailed market insights and data-driven analysis.
                         Focus on practical business recommendations.
                         Please respond in Traditional Chinese.");
   ("aws_sa",
"你是一個 AWS Solutions Architect.
                         你會用台灣中文回答關於AWS的所有技術、架構問題，但遇到專有名詞你會使用原來的英文不會進行翻譯。
                         說明過程要有條有理")].

(** ** class BedrockChat *)

(** [__init__]: the client handle is the [service] of the world. *)
Definition BedrockChat_init (role_type : string) : BedrockChat :=
  {| conversation_history := PList [];
     model_id := "anthropic.claude-3-sonnet-20240229-v1:0";
     current_role := role_type;
     available_commands := COMMAND_HELP |}.

Definition show_help (command : option string) : M unit :=
  s ← self;
  match
    match command with
    | Some c =>
        if negb (String.eqb c "") && dict_has (available_commands s) c
        then Some c else None
    | None => None
    end
  with
  | Some c =>
      cmd_info ← lookup_key (available_commands s) c;
      a ← lookup_key cmd_info "指令";
      print_str (Str.nl +:+ "【" +:+ a +:+ "】指令說明：");;
      b ← lookup_key cmd_info "說明";
      print_str ("說明：" +:+ b);;
      u ← lookup_key cmd_info "使用方式";
      print_str ("使用方式：" +:+ u)
  | None =>
      print_str (Str.nl +:+ "=== 可用指令說明 ===");;
      for_each (available_commands s) (fun '(cmd, info) =>
        a ← lookup_key info "指令";
        print_str (Str.nl +:+ "【" +:+ a +:+ "】");;
        b ← lookup_key info "說明";
        print_str ("說明：" +:+ b);;
        u ← lookup_key info "使用方式";
        print_str ("使用方式：" +:+ u));;
      print_str (Str.nl +:+ "==================")
  end.

Definition show_current_role : M unit :=
  s ← self;
  print_str (Str.nl +:+ "當前角色：" +:+ current_role s);;
  p ← lookup_key ROLE_PROMPTS (current_role s);
  print_str ("角色設定：" +:+ Str.slice_to 100 p +:+ "...").

Definition set_role (role_type : string) : M bool :=
  s ← self;
  if dict_has ROLE_PROMPTS role_type then
    set_self (with_role role_type s);;
    mret true
  else mret false.

(** [self.conversation_history.append({...})]: only a list has [append],
    and the attribute is looked up before the time is read. *)
Definition add_to_history (role : string) (content : pyval) : M unit :=
  s ← self;
  match conversation_history s with
  | PList l =>
      t ← now_isoformat;
      set_self (with_history
                  (PList (l ++ [PDict [("role", PStr role);
                                       ("content", content);
                                       ("timestamp", PStr t)]])) s)
  | _ => raise AttributeError
  end.

(** [{"role": msg["role"], "content": msg["content"]}] *)
Definition message_of (msg : pyval) : exn + pyval :=
  match getitem_str msg "role" with
  | inl e => inl e
  | inr r =>
      match getitem_str msg "content" with
      | inl e => inl e
      | inr c => inr (PDict [("role", r); ("content", c)])
      end
  end.

(** [response_body['content'][0]['text']] of the decoded body. *)
Definition reply_of (response : text) : exn + pyval :=
  match JSON.loads response with
  | None => inl JSONDecodeError
  | Some response_body =>
      match getitem_str response_body "content" with
      | inl e => inl e
      | inr content =>
          match getitem_0 content with
          | inl e => inl e
          | inr block => getitem_str block "text"
          end
      end
  end.

Definition get_response (user_input : string) : M pyval :=
  try_except
    (add_to_history "user" (PStr user_input);;
     s ← self;
     messages ←
       match conversation_history s with
       | PList l => comprehension (fun msg => lift (message_of msg)) l
       | _ => raise TypeError   (* not reached: [append] went through *)
       end;
     system ← lookup_key ROLE_PROMPTS (current_role s);
     response ←
       invoke_model
         {| modelId := model_id s;
            body := {| anthropic_version := "bedrock-2023-05-31";
                       messages := messages;
                       max_tokens := 4096;
                       temperature := 7 # 10;
                       top_p := 9 # 10;
                       top_k := 250;
                       system := system |};
            contentType := "application/json";
            accept := "application/json" |};
     assistant_response ← lift (reply_of response);
     add_to_history "assistant" assistant_response;;
     mret assistant_response)
    [(is_Exception, fun e => emit (PrintExc "錯誤: " e);; mret PNone)].

Definition clear_history : M unit :=
  s ← self;
  set_self (with_history (PList []) s).

(** [json.dump(self.conversation_history, f, ensure_ascii=False, indent=2)]
    into the file opened for writing. *)
Definition save_conversation (filename : string) : M unit :=
  s ← self;
  write_file filename (JSON.dumps (conversation_history s)).

(** [json.load(f)] *)
Definition json_load (data : text) : M pyval :=
  match JSON.loads data with
  | Some v => mret v
  | None => raise JSONDecodeError
  end.

Definition load_conversation (filename : string) : M unit :=
  try_except
    (data ← read_file filename;
     v ← json_load data;
     s ← self;
     set_self (with_history v s);;
     print_str "對話歷史已載入")
    [(is_FileNotFoundError, fun _ => print_str "找不到歷史對話檔案")].

(** ** main *)

Inductive loop_ctl : Type := Continue | Break.

(** [l[1]] on the result of [split] *)
Definition second (l : list string) : M string :=
  match l with
  | _ :: x :: _ => mret x
  | _ => raise IndexError
  end.

(** The [try] block of the loop, up to its [continue], its [break] or its
    end. *)
Definition loop_body : M loop_ctl :=
  line ← input (Str.nl +:+ "你: ");
  let user_input := Str.strip line in
  if String.eqb (Str.lower user_input) "help" then
    show_help None;;
    mret Continue
  else if Str.startswith (Str.lower user_input) "help " then
    specific_command ← second (Str.split (Str.lower user_input));
    show_help (Some specific_command);;
    mret Continue
  else if String.eqb (Str.lower user_input) "quit" then
    print_str "感謝使用！再見！";;
    mret Break
  else if String.eqb (Str.lower user_input) "clear" then
    clear_history;;
    print_str "對話歷史已清除！";;
    mret Continue
  else if String.eqb (Str.lower user_input) "save" then
    save_conversation "chat_history.json";;
    print_str "對話歷史已儲存";;
    mret Continue
  else if String.eqb (Str.lower user_input) "load" then
    load_conversation "chat_history.json";;
    mret Continue
  else if String.eqb (Str.lower user_input) "role" then
    print_str (Str.nl +:+ "可用角色：");;
    for_each (dict_keys ROLE_PROMPTS) (fun role => print_str ("- " +:+ role));;
    show_current_role;;
    line' ← input "請選擇角色 (直接按 Enter 維持當前角色): ";
    let new_role := Str.strip line' in
    (if negb (String.eqb new_role "") then
       ok ← set_role new_role;
       if ok : bool then print_str ("已切換至 " +:+ new_role +:+ " 角色")
       else print_str "無效的角色類型"
     else mret tt);;
    mret Continue
  else if String.eqb user_input "" then
    mret Continue
  else
    response ← get_response user_input;
    (if truthy response
     then print [PStr (Str.nl +:+ "Claude:"); response]
     else print_str (Str.nl +:+ "抱歉，出現錯誤，請重試。"));;
    mret Continue.

(** One turn of [while True]. *)
Definition main_iteration : M loop_ctl :=
  try_except loop_body
    [(is_KeyboardInterrupt, fun _ => print_str (Str.nl +:+ "程式已中止");; mret Break);
     (is_Exception, fun e => emit (PrintExc (Str.nl +:+ "發生錯誤: ") e);; mret Continue)].

(** At most [n] turns of the loop: [Some tt] once it has left by [break],
    [None] while it is still running. *)
Fixpoint main_loop (n : nat) : M (option unit) :=
  match n with
  | O => mret None
  | S n' =>
      c ← main_iteration;
      match c with
      | Break => mret (Some tt)
      | Continue => main_loop n'
      end
  end.

Definition main (n : nat) : M (option unit) :=
  set_self (BedrockChat_init "default");;
  print_str (Str.nl +:+ "=== 歡迎使用 AWS Bedrock Chat (Claude 3 Sonnet) ===");;
  print_str "輸入 'help' 查看所有可用指令";;
  print_str "================================================";;
  main_loop n.

(** ** Sessions *)

(** The calls [main] makes on the instance. *)
Inductive call : Type :=
| ShowHelp (command : option string)
| ShowCurrentRole
| SetRole (role_type : string)
| GetResponse (user_input : string)
| ClearHistory
| SaveConversation (filename : string)
| LoadConversation (filename : string).

Definition run_call (c : call) : M unit :=
  match c with
  | ShowHelp command => show_help command
  | ShowCurrentRole => show_current_role
  | SetRole r => set_role r;; mret tt
  | GetResponse u => get_response u;; mret tt
  | ClearHistory => clear_history
  | SaveConversation f => save_conversation f
  | LoadConversation f => load_conversation f
  end.

(** The worlds a session can be in: it starts as [main] starts it, with
    [BedrockChat()], and goes on by calls of the methods or turns of the
    command loop, whether they end normally or raise; meanwhile the
    environment may change the files and what waits on the input. *)
Inductive reachable : world -> Prop :=
| reach_init w :
    chat w = BedrockChat_init "default" -> reachable w
| reach_call w c r w' :
    reachable w -> run_call c w = (r, w') -> reachable w'
| reach_iteration w r w' :
    reachable w -> main_iteration w = (r, w') -> reachable w'
| reach_env w fs i :
    reachable w -> reachable (with_files fs (with_stdin i w)).

(** [sendTurn] called on each input in turn; the replies are collected. *)
Definition send_turns (inputs : list string) : M (list pyval) :=
  comprehension get_response inputs.

(** A turn as [add_to_history] stores it. *)
Definition turn (role : string) (content : pyval) (timestamp : string) : pyval :=
  PDict [("role", PStr role); ("content", content); ("timestamp", PStr timestamp)].


(** ** Measures and predicates used in the proofs *)

(** The number of nested scanner calls a value needs. *)
Fixpoint weight (v : pyval) : nat :=
  match v with
  | PList l => S (list_sum (map (fun x => S (weight x)) l))
  | PDict d => S (list_sum (map (fun kv => S (weight (snd kv))) d))
  | _ => 1
  end.

(** What may follow a number for it to end there. *)
Definition ends_number (rest : text) : Prop :=
  match rest with
  | [] => True
  | c :: _ =>
      JSON.is_digit c = false /\ c <> "."%char /\ c <> "e"%char /\ c <> "E"%char
  end.

(** The text starts a value: not with whitespace, not with a closing
    bracket. *)
Definition starts_value (s : text) : bool :=
  match s with
  | c :: _ => negb (JSON.is_ws c) && negb (Ascii.eqb c "]") && negb (Ascii.eqb c "}")
  | [] => false
  end.

(** The text written after the first item of a list or dict. *)
Definition more_items (level : nat) (xs : list pyval) : text :=
  flat_map (fun y => ","%char :: JSON.newline_indent (S level)
                       ++ JSON.iterencode (S level) y) xs.

Definition more_members (level : nat) (kxs : list (string * pyval)) : text :=
  flat_map (fun ky => ","%char :: JSON.newline_indent (S level)
                        ++ JSON.encode_basestring (fst ky) ++ [":"; " "]%char
                        ++ JSON.iterencode (S level) (snd ky)) kxs.

(** The three scanners read back what the encoder wrote, given enough
    nested calls. *)
Definition scan_once_spec (n : nat) : Prop :=
  forall v level rest,
    (weight v <= n)%nat -> pyval_wf v = true -> ends_number rest ->
    JSON.scan_once n (JSON.iterencode level v ++ rest) = Some (v, rest).

Definition array_items_spec (n : nat) : Prop :=
  forall x xs level rest,
    (list_sum (map (fun y => S (weight y)) (x :: xs)) <= n)%nat ->
    forallb pyval_wf (x :: xs) = true ->
    JSON.array_items n (JSON.iterencode (S level) x ++ more_items level xs
                     ++ JSON.newline_indent level ++ "]"%char :: rest)
    = Some (x :: xs, rest).

Definition object_items_spec (n : nat) : Prop :=
  forall k x kxs level rest,
    (list_sum (map (fun ky => S (weight (snd ky))) ((k, x) :: kxs)) <= n)%nat ->
    forallb (fun ky => pyval_wf (snd ky)) ((k, x) :: kxs) = true ->
    JSON.object_items n (JSON.encode_basestring k ++ [":"; " "]%char
                      ++ JSON.iterencode (S level) x ++ more_members level kxs
                      ++ JSON.newline_indent level ++ "}"%char :: rest)
    = Some ((k, x) :: kxs, rest).


(** ** What [get_response] does, step by step *)

(** The comprehension over the history, without the monad. *)
Fixpoint messages_of (l : list pyval) : exn + list pyval :=
  match l with
  | [] => inr []
  | msg :: l' =>
      match message_of msg with
      | inl e => inl e
      | inr m =>
          match messages_of l' with
          | inl e => inl e
          | inr ms => inr (m :: ms)
          end
      end
  end.

(** The request [get_response user_input] sends from a world, if it gets
    as far as sending one: the history below is the one extended with the
    new user turn. *)
Definition request_for (c : BedrockChat) (history : list pyval) : exn + invoke_args :=
  match messages_of history with
  | inl e => inl e
  | inr ms =>
      match dict_get ROLE_PROMPTS (current_role c) with
      | None => inl KeyError
      | Some prompt =>
          inr {| modelId := model_id c;
                 body := {| anthropic_version := "bedrock-2023-05-31";
                            messages := ms;
                            max_tokens := 4096;
                            temperature := 7 # 10;
                            top_p := 9 # 10;
                            top_k := 250;
                            system := prompt |};
                 contentType := "application/json";
                 accept := "application/json" |}
      end
  end.

(** The [except Exception] clause of [get_response], from the world the
    exception left. *)
Definition caught (e : exn) (w : world) : (exn + pyval) * world :=
  if is_Exception e
  then (inr PNone, with_trace (trace w ++ [PrintExc "錯誤: " e]) w)
  else (inl e, w).

(** The world after [add_to_history] on a list. *)
Definition appended (role : string) (content : pyval) (l : list pyval) (w : world)
  : world :=
  with_ticks (S (ticks w))
    (with_chat (with_history (PList (l ++ [turn role content (clock w (ticks w))]))
                  (chat w)) w).

(** The world after the request has gone out. *)
Definition requested (a : invoke_args) (w : world) : world :=
  with_calls (S (calls w)) (with_trace (trace w ++ [InvokeModel a]) w).

(** The inference call fails: the client raises, or the body has no
    [content[0].text] to give. *)
Definition completion_failed (r : invoke_result) : bool :=
  match r with
  | InvokeRaises e => is_Exception e
  | InvokeReturns b => match reply_of b with inl _ => true | inr _ => false end
  end.

(** The history that [n] successful exchanges leave, read from a clock. *)
Fixpoint dialogue (clock : nat -> string) (t : nat) (exchanges : list (string * pyval))
  : list pyval :=
  match exchanges with
  | [] => []
  | (u, r) :: rest =>
      turn "user" (PStr u) (clock t)
        :: turn "assistant" r (clock (S t))
        :: dialogue clock (S (S t)) rest
  end.

(** The role of a stored turn. *)
Definition role_of (msg : pyval) : option pyval :=
  match msg with
  | PDict d => dict_get d "role"
  | _ => None
  end.

Definition content_of (msg : pyval) : option pyval :=
  match msg with
  | PDict d => dict_get d "content"
  | _ => None
  end.

(** The six names the specification lists. *)
Definition role_names : list string :=
  ["default"; "translator"; "programmer"; "teacher"; "business_analyst"; "aws_sa"].

(** ** The invariant of a session *)

(** What holds of the instance from its construction by [BedrockChat()]
    on: the current role is a key of [ROLE_PROMPTS], the model identifier
    and the command table are the ones [__init__] sets, and the history is
    a Python value. *)
Definition chat_ok (c : BedrockChat) : Prop :=
  dict_has ROLE_PROMPTS (current_role c) = true
  /\ model_id c = "anthropic.claude-3-sonnet-20240229-v1:0"
  /\ available_commands c = COMMAND_HELP
  /\ pyval_wf (conversation_history c) = true.

(** A statement keeps the invariant, however it ends. *)
Definition preserves {A} (m : M A) : Prop :=
  forall w r w', chat_ok (chat w) -> m w = (r, w') -> chat_ok (chat w').

(** A statement does not touch the instance. *)
Definition keeps_chat {A} (m : M A) : Prop :=
  forall w r w', m w = (r, w') -> chat w' = chat w.

(** The values a statement returns. *)
Definition returns {A} (P : A -> Prop) (m : M A) : Prop :=
  forall w a w', m w = (inr a, w') -> P a.

(** Worlds to run examples in. *)
Definition example_clock (n : nat) : string :=
  "2024-05-01T10:00:0" +:+ String (ascii_of_nat (48 + n)) "".

Definition example_world (i : list stdin_event)
    (svc : nat -> invoke_args -> invoke_result) : world :=
  mkWorld (BedrockChat_init "default") ∅ i example_clock 0 svc 0 [].

Definition no_service : nat -> invoke_args -> invoke_result :=
  fun _ _ => InvokeRaises ServiceError.

Definition example_history : pyval :=
  PList [turn "user" (PStr "Hello") "t0"; turn "assistant" (PStr "Bonjour") "t1"].

(** A service that answers every request with the text [Bonjour]: the body
    is the encoding of [{"content": [{"type": "text", "text": "Bonjour"}]}]. *)
Definition bonjour_service : nat -> invoke_args -> invoke_result :=
  fun _ _ =>
    InvokeReturns
      (JSON.dumps
         (PDict [("content",
                  PList [PDict [("type", PStr "text"); ("text", PStr "Bonjour")]])])).

(** A service that answers the first request and fails from then on. *)
Definition flaky_service : nat -> invoke_args -> invoke_result :=
  fun n a =>
    match n with
    | O => bonjour_service n a
    | S _ => InvokeRaises ServiceError
    end.

(** How a message of the request relates to the stored turn it comes
    from: its role and its content, and nothing else. *)
Definition stripped (msg m : pyval) : Prop :=
  exists r c,
    role_of msg = Some r /\ content_of msg = Some c
    /\ m = PDict [("role", r); ("content", c)].

(** The request of the first turn [Hello] of a new session. *)
Definition example_request : invoke_args :=
  {| modelId := "anthropic.claude-3-sonnet-20240229-v1:0";
     body := {| anthropic_version := "bedrock-2023-05-31";
                messages := [PDict [("role", PStr "user"); ("content", PStr "Hello")]];
                max_tokens := 4096;
                temperature := 7 # 10;
                top_p := 9 # 10;
                top_k := 250;
                system := "You are Claude, an AI assistant created by Anthropic. 
                 You are helpful, harmless, and honest." |};
     contentType := "application/json";
     accept := "application/json" |}.

(** What the scanners return is a Python value. *)
Definition scan_once_wf (n : nat) : Prop :=
  forall s v r, JSON.scan_once n s = Some (v, r) -> pyval_wf v = true.

Definition array_items_wf (n : nat) : Prop :=
  forall s vs r, JSON.array_items n s = Some (vs, r) -> forallb pyval_wf vs = true.

Definition object_items_wf (n : nat) : Prop :=
  forall s kvs r,
    JSON.object_items n s = Some (kvs, r) ->
    forallb (fun kv => pyval_wf (snd kv)) kvs = true.

(** A service whose body has [null] for text. *)
Definition null_service : nat -> invoke_args -> invoke_result :=
  fun _ _ =>
    InvokeReturns
      (JSON.dumps (PDict [("content", PList [PDict [("text", PNone)]])])).

(** ** Worlds along a turn of the command loop *)

(** The world once [input] has written the prompt of the loop and read a
    line. *)
Definition prompted (rest : list stdin_event) (w : world) : world :=
  with_stdin rest (with_trace (trace w ++ [Prompt (Str.nl +:+ "你: ")]) w).

(** The world with some more events on its trace. *)
Definition traced (evs : list event) (w : world) : world :=
  with_trace (trace w ++ evs) w.

(** The message a user turn becomes in a request. *)
Definition user_message (u : string) : pyval :=
  PDict [("role", PStr "user"); ("content", PStr u)].

(** The keys of [COMMAND_HELP]. *)
Definition command_names : list string :=
  ["help"; "quit"; "clear"; "save"; "load"; "role"].

Definition is_print (ev : event) : bool :=
  match ev with Print _ => true | _ => false end.

(** A session constructed with a role that is not registered. *)
Definition pirate_world : world :=
  with_chat (BedrockChat_init "pirate") (example_world [] bonjour_service).

(** A service call interrupted from the keyboard. *)
Definition interrupted_service : nat -> invoke_args -> invoke_result :=
  fun _ _ => InvokeRaises KeyboardInterrupt.

(** A world whose history file holds a JSON object, not a list. *)
Definition object_file_world : world :=
  with_files (<["chat_history.json" := File (text_of "{}")]> ∅)
    (example_world [] bonjour_service).

(** A world whose history has an entry without role and content. *)
Definition bad_entry_world : world :=
  with_chat (with_history (PList [PDict [("note", PStr "memo")]])
               (BedrockChat_init "default"))
    (example_world [] bonjour_service).

(** The request [get_response] builds from a model identifier, the
    messages and the prompt of the role. *)
Definition make_request (model : string) (ms : list pyval) (prompt : string)
  : invoke_args :=
  {| modelId := model;
     body := {| anthropic_version := "bedrock-2023-05-31";
                messages := ms;
                max_tokens := 4096;
                temperature := 7 # 10;
                top_p := 9 # 10;
                top_k := 250;
                system := prompt |};
     contentType := "application/json";
     accept := "application/json" |}.

(** The tests of the command loop that keep a line from being sent as a
    message, the empty line apart. *)
Definition is_command (user_input : string) : bool :=
  String.eqb (Str.lower user_input) "help"
  || Str.startswith (Str.lower user_input) "help "
  || String.eqb (Str.lower user_input) "quit"
  || String.eqb (Str.lower user_input) "clear"
  || String.eqb (Str.lower user_input) "save"
  || String.eqb (Str.lower user_input) "load"
  || String.eqb (Str.lower user_input) "role".

(** What the loop prints after [get_response]. *)
Definition reply_line (response : pyval) : event :=
  if truthy response
  then Print [PStr (Str.nl +:+ "Claude:"); response]
  else Print [PStr (Str.nl +:+ "抱歉，出現錯誤，請重試。")].

(** A statement that reads no input, sends no request and raises nothing
    but what [except Exception] catches. *)
Definition calm {A} (m : M A) : Prop :=
  forall w r w',
    m w = (r, w') ->
    stdin w' = stdin w /\ calls w' = calls w /\ service w' = service w
    /\ (forall e, r = inl e -> is_Exception e = true).

(** A statement of the loop that ends with [continue] or with an
    exception of the class [Exception], unless it is interrupted: from the
    keyboard while it reads, or inside the service call. *)
Definition tame (m : M loop_ctl) : Prop :=
  forall w r w',
    m w = (r, w') ->
    r = inr Continue
    \/ (exists e, r = inl e /\ is_Exception e = true)
    \/ In Interrupt (stdin w)
    \/ (exists a, service w (calls w) a = InvokeRaises KeyboardInterrupt).

(** The body of the loop once the line is read and stripped: the chain of
    tests of [loop_body], as a function of [user_input]. *)
Definition dispatch (user_input : string) : M loop_ctl :=
  if String.eqb (Str.lower user_input) "help" then
    show_help None;;
    mret Continue
  else if Str.startswith (Str.lower user_input) "help " then
    specific_command ← second (Str.split (Str.lower user_input));
    show_help (Some specific_command);;
    mret Continue
  else if String.eqb (Str.lower user_input) "quit" then
    print_str "感謝使用！再見！";;
    mret Break
  else if String.eqb (Str.lower user_input) "clear" then
    clear_history;;
    print_str "對話歷史已清除！";;
    mret Continue
  else if String.eqb (Str.lower user_input) "save" then
    save_conversation "chat_history.json";;
    print_str "對話歷史已儲存";;
    mret Continue
  else if String.eqb (Str.lower user_input) "load" then
    load_conversation "chat_history.json";;
    mret Continue
  else if String.eqb (Str.lower user_input) "role" then
    print_str (Str.nl +:+ "可用角色：");;
    for_each (dict_keys ROLE_PROMPTS) (fun role => print_str ("- " +:+ role));;
    show_current_role;;
    line' ← input "請選擇角色 (直接按 Enter 維持當前角色): ";
    let new_role := Str.strip line' in
    (if negb (String.eqb new_role "") then
       ok ← set_role new_role;
       if ok : bool then print_str ("已切換至 " +:+ new_role +:+ " 角色")
       else print_str "無效的角色類型"
     else mret tt);;
    mret Continue
  else if String.eqb user_input "" then
    mret Continue
  else
    response ← get_response user_input;
    (if truthy response
     then print [PStr (Str.nl +:+ "Claude:"); response]
     else print_str (Str.nl +:+ "抱歉，出現錯誤，請重試。"));;
    mret Continue.

(** The two [except] clauses of the loop. *)
Definition loop_handlers : list ((exn -> bool) * (exn -> M loop_ctl)) :=
  [(is_KeyboardInterrupt, fun _ => print_str (Str.nl +:+ "程式已中止");; mret Break);
   (is_Exception, fun e => emit (PrintExc (Str.nl +:+ "發生錯誤: ") e);; mret Continue)].

(** * Properties *)

Local Close Scope Z_scope.

(** ** The JSON encoder and scanner are inverse on every value *)
Section JSON_roundtrip.
Import JSON.

Lemma skip_ws_indent (k : nat) (s : text) :
  skip_ws (concat (replicate k [" "; " "]%char) ++ s) = skip_ws s.
Proof. induction k as [|k IH]; [reflexivity | exact IH]. Qed.

Lemma skip_ws_newline_indent (level : nat) (s : text) :
  skip_ws (newline_indent level ++ s) = skip_ws s.
Proof. unfold newline_indent. cbn. apply skip_ws_indent. Qed.

(** One character, escaped, is read back as itself. *)
Lemma scanstring_escape_char (c : ascii) (r : text) :
  scanstring (escape_char c ++ r) =
  match scanstring r with
  | Some (t, rest) => Some (c :: t, rest)
  | None => None
  end.
Proof.
  destruct c as [[] [] [] [] [] [] [] []]; reflexivity.
Qed.

Lemma scanstring_escaped (t : text) (rest : text) :
  scanstring (flat_map escape_char t ++ "034"%char :: rest) = Some (t, rest).
Proof.
  induction t as [|c t IH]; [reflexivity|].
  cbn [flat_map]. rewrite <- app_assoc, scanstring_escape_char, IH.
  reflexivity.
Qed.

Lemma scanstring_basestring (s : string) (rest : text) :
  exists r, encode_basestring s ++ rest = "034"%char :: r
            /\ scanstring r = Some (text_of s, rest).
Proof.
  exists (flat_map escape_char (text_of s) ++ "034"%char :: rest). split.
  - unfold encode_basestring. cbn. rewrite <- app_assoc. reflexivity.
  - apply scanstring_escaped.
Qed.

Lemma float_follows_ends (rest : text) :
  ends_number rest -> float_follows rest = false.
Proof.
  destruct rest as [|c [|d r]]; cbn; try reflexivity.
  intros (_ & Hdot & He & HE).
  apply Ascii.eqb_neq in Hdot, He, HE. rewrite Hdot, He, HE. reflexivity.
Qed.

Lemma scan_digits_ends (rest : text) :
  ends_number rest -> scan_digits rest = (Decimal.Nil, rest).
Proof.
  destruct rest as [|c r]; cbn; [reflexivity|].
  intros (Hd & _). unfold is_digit in Hd.
  destruct (digit_of c); [discriminate | reflexivity].
Qed.

Lemma scan_digits_uint_chars (d : Decimal.uint) (rest : text) :
  ends_number rest -> scan_digits (uint_chars d ++ rest) = (d, rest).
Proof.
  intros Hrest. induction d; cbn [uint_chars app];
    [ apply scan_digits_ends, Hrest
    | cbn [scan_digits]; cbn [digit_of Ascii.eqb Bool.eqb]; rewrite IHd; reflexivity .. ].
Qed.

Lemma unorm_to_uint (p : positive) : Decimal.unorm (Pos.to_uint p) = Pos.to_uint p.
Proof.
  rewrite <- DecimalPos.Unsigned.to_of, DecimalPos.Unsigned.of_to. reflexivity.
Qed.

Lemma to_uint_not_D0 (p : positive) (u : Decimal.uint) :
  Pos.to_uint p <> Decimal.D0 u.
Proof.
  intros E. pose proof (unorm_to_uint p) as H. rewrite E in H.
  rewrite DecimalFacts.unorm_D0 in H. unfold Decimal.unorm in H.
  destruct (Decimal.nzhead u) as [|u0|u0|u0|u0|u0|u0|u0|u0|u0|u0] eqn:Hu;
    try discriminate H.
  - injection H as <-. exact (DecimalPos.Unsigned.to_uint_nonzero p E).
  - exact (DecimalFacts.nzhead_nonzero u u0 Hu).
Qed.

Lemma scan_int_part_to_uint (p : positive) (rest : text) :
  ends_number rest ->
  scan_int_part (uint_chars (Pos.to_uint p) ++ rest) = Some (Pos.to_uint p, rest).
Proof.
  intros Hrest.
  pose proof (scan_digits_uint_chars (Pos.to_uint p) rest Hrest) as Hscan.
  pose proof (DecimalPos.Unsigned.to_uint_nonnil p) as Hnil.
  pose proof (to_uint_not_D0 p) as H0.
  destruct (Pos.to_uint p) as [|u|u|u|u|u|u|u|u|u|u];
    [ congruence | exfalso; exact (H0 u eq_refl)
    | cbn [uint_chars app] in *; unfold scan_int_part;
      cbn [Ascii.eqb Bool.eqb is_digit digit_of]; rewrite Hscan; reflexivity .. ].
Qed.

Lemma match_number_int_repr (z : Z) (rest : text) :
  ends_number rest -> match_number (int_repr z ++ rest) = Some (PInt z, rest).
Proof.
  intros Hrest. pose proof (float_follows_ends rest Hrest) as Hf.
  pose proof (DecimalZ.of_to z) as Hz.
  unfold int_repr. destruct z as [|p|p]; cbn [Z.to_int] in *.
  - cbn. rewrite Hf. reflexivity.
  - pose proof (scan_int_part_to_uint p rest Hrest) as Hs.
    pose proof (DecimalPos.Unsigned.to_uint_nonnil p) as Hnil.
    pose proof (to_uint_not_D0 p) as H0.
    unfold match_number.
    destruct (uint_chars (Pos.to_uint p) ++ rest) as [|c r] eqn:E.
    + discriminate.
    + destruct (Ascii.eqb c "-") eqn:Hc.
      * apply Ascii.eqb_eq in Hc. subst c.
        destruct (Pos.to_uint p); cbn in E; try discriminate; congruence.
      * rewrite Hs, Hf, Hz. reflexivity.
  - cbn [app match_number Ascii.eqb Bool.eqb].
    rewrite (scan_int_part_to_uint p rest Hrest), Hf, Hz. reflexivity.
Qed.

Lemma int_repr_head (z : Z) :
  exists c r, int_repr z = c :: r /\ (is_digit c = true \/ c = "-"%char).
Proof.
  unfold int_repr. destruct z as [|p|p]; cbn [Z.to_int].
  - eexists _, _. split; [reflexivity | left; reflexivity].
  - pose proof (DecimalPos.Unsigned.to_uint_nonnil p) as Hnil.
    destruct (Pos.to_uint p); [congruence | ..];
      (eexists _, _; split; [reflexivity | left; reflexivity]).
  - eexists _, _. split; [reflexivity | right; reflexivity].
Qed.

Lemma scan_once_number (n : nat) (c : ascii) (r : text) :
  is_digit c = true \/ c = "-"%char ->
  scan_once (S n) (c :: r) = match_number (c :: r).
Proof.
  intros [H | ->]; [|reflexivity].
  destruct c as [[] [] [] [] [] [] [] []]; try discriminate H; reflexivity.
Qed.

Lemma starts_value_skip_ws (s : text) : starts_value s = true -> skip_ws s = s.
Proof.
  destruct s as [|c r]; cbn; [discriminate|].
  destruct (is_ws c); [discriminate | reflexivity].
Qed.

Lemma starts_value_iterencode (level : nat) (v : pyval) (rest : text) :
  starts_value (iterencode level v ++ rest) = true.
Proof.
  destruct v as [|[]|z|s|[|x xs]|[|[k x] kxs]]; try reflexivity.
  destruct (int_repr_head z) as (c & r & E & H). cbn [iterencode].
  rewrite E. destruct H as [H | ->]; [|reflexivity].
  destruct c as [[] [] [] [] [] [] [] []]; try discriminate H; reflexivity.
Qed.

Lemma ends_number_more_items level xs k rest :
  ends_number (more_items level xs ++ newline_indent k ++ rest).
Proof. destruct xs; cbn; repeat split; discriminate. Qed.

Lemma ends_number_more_members level kxs k rest :
  ends_number (more_members level kxs ++ newline_indent k ++ rest).
Proof. destruct kxs; cbn; repeat split; discriminate. Qed.

(** A dict with distinct keys is rebuilt as it was written. *)
Lemma dict_set_fresh (d : list (string * pyval)) k v :
  existsb (String.eqb k) (map fst d) = false -> dict_set d k v = d ++ [(k, v)].
Proof.
  induction d as [|[k' v'] d IH]; cbn; [reflexivity|].
  intros H. apply orb_false_iff in H as [Hk Hd].
  rewrite String.eqb_sym, Hk, (IH Hd). reflexivity.
Qed.

Lemma existsb_eqb_app k (l1 l2 : list string) :
  existsb (String.eqb k) (l1 ++ l2)
  = existsb (String.eqb k) l1 || existsb (String.eqb k) l2.
Proof. apply existsb_app. Qed.

Lemma dict_of_pairs_acc (pairs acc : list (string * pyval)) :
  nodup_keys (map fst (acc ++ pairs)) = true ->
  fold_left (fun d kv => dict_set d (fst kv) (snd kv)) pairs acc = acc ++ pairs.
Proof.
  revert acc. induction pairs as [|[k v] pairs IH]; intros acc H; cbn.
  - symmetry. apply app_nil_r.
  - replace (acc ++ (k, v) :: pairs) with ((acc ++ [(k, v)]) ++ pairs) in *
      by (rewrite <- app_assoc; reflexivity).
    rewrite dict_set_fresh; [apply IH, H|].
    clear IH. induction acc as [|[k' v'] acc IHacc]; [reflexivity|].
    cbn in H |- *. apply andb_true_iff in H as [Hk' Hrest].
    rewrite (IHacc Hrest), orb_false_r.
    rewrite map_app, map_app, existsb_app, existsb_app in Hk'. cbn in Hk'.
    apply negb_true_iff in Hk'.
    apply orb_false_iff in Hk' as [Hk' _]. apply orb_false_iff in Hk' as [_ Hk'].
    apply orb_false_iff in Hk' as [Hk' _]. rewrite String.eqb_sym. exact Hk'.
Qed.

Lemma dict_of_pairs_nodup (pairs : list (string * pyval)) :
  nodup_keys (map fst pairs) = true -> dict_of_pairs pairs = pairs.
Proof. intros H. unfold dict_of_pairs. rewrite dict_of_pairs_acc; auto. Qed.

Lemma list_sum_map_cons {A} (f : A -> nat) (x : A) (xs : list A) :
  list_sum (map f (x :: xs)) = f x + list_sum (map f xs).
Proof. reflexivity. Qed.

Lemma iterencode_list level x xs :
  iterencode level (PList (x :: xs))
  = "["%char :: newline_indent (S level) ++ iterencode (S level) x
      ++ more_items level xs ++ newline_indent level ++ ["]"%char].
Proof. reflexivity. Qed.

Lemma iterencode_dict level k x kxs :
  iterencode level (PDict ((k, x) :: kxs))
  = "{"%char :: newline_indent (S level)
      ++ encode_basestring k ++ [":"; " "]%char ++ iterencode (S level) x
      ++ more_members level kxs ++ newline_indent level ++ ["}"%char].
Proof. reflexivity. Qed.

Lemma scan_once_step (n : nat) :
  array_items_spec n -> object_items_spec n -> scan_once_spec (S n).
Proof.
  intros HA HO v level rest Hw Hwf Hrest.
  destruct v as [|[]|z|s|[|x xs]|[|[k x] kxs]]; try reflexivity.
  - (* int *)
    cbn [iterencode]. destruct (int_repr_head z) as (c & r & E & H).
    pose proof (match_number_int_repr z rest Hrest) as Hm.
    rewrite E in Hm |- *. cbn [app] in Hm |- *.
    rewrite scan_once_number by exact H. exact Hm.
  - (* str *)
    cbn [iterencode].
    destruct (scanstring_basestring s rest) as (r & -> & Hs).
    cbn. rewrite Hs. unfold text_of. rewrite string_of_list_ascii_of_string.
    reflexivity.
  - (* list *)
    rewrite iterencode_list. cbn [app scan_once Ascii.eqb Bool.eqb].
    repeat rewrite <- app_assoc. rewrite skip_ws_newline_indent.
    rewrite starts_value_skip_ws by apply starts_value_iterencode.
    pose proof (starts_value_iterencode (S level) x
                  (more_items level xs ++ newline_indent level ++ "]"%char :: rest))
      as Hstart.
    cbn [weight] in Hw. cbn [pyval_wf] in Hwf.
    specialize (HA x xs level rest ltac:(lia) Hwf).
    cbn [app] in HA |- *.
    destruct (iterencode (S level) x ++ more_items level xs
                ++ newline_indent level ++ "]"%char :: rest) as [|c r] eqn:E;
      [discriminate Hstart|].
    cbn in Hstart. destruct (Ascii.eqb c "]"); [ | rewrite HA; reflexivity].
    rewrite andb_false_r in Hstart. discriminate.
  - (* dict *)
    rewrite iterencode_dict. cbn [app scan_once Ascii.eqb Bool.eqb].
    repeat rewrite <- app_assoc. rewrite skip_ws_newline_indent.
    cbn [weight] in Hw. cbn [pyval_wf] in Hwf.
    apply andb_true_iff in Hwf as [Hnodup Hwf].
    specialize (HO k x kxs level rest ltac:(lia) Hwf).
    cbn [app] in HO |- *.
    unfold encode_basestring in HO |- *. cbn [app skip_ws is_ws Ascii.eqb Bool.eqb orb] in HO |- *.
    repeat rewrite <- app_assoc in HO. repeat rewrite <- app_assoc.
    cbn [app] in HO |- *.
    rewrite HO. rewrite dict_of_pairs_nodup by exact Hnodup. reflexivity.
Qed.

Lemma array_items_step (n : nat) :
  scan_once_spec n -> array_items_spec n -> array_items_spec (S n).
Proof.
  intros HS HA x xs level rest Hw Hwf.
  rewrite list_sum_map_cons in Hw. cbn [forallb] in Hwf.
  apply andb_true_iff in Hwf as [Hx Hxs].
  cbn [array_items].
  rewrite HS; [ | lia | exact Hx | apply ends_number_more_items ].
  destruct xs as [|y ys].
  - cbn [more_items flat_map app]. rewrite skip_ws_newline_indent. reflexivity.
  - unfold more_items. cbn [flat_map app skip_ws is_ws Ascii.eqb Bool.eqb orb].
    repeat rewrite <- app_assoc. rewrite skip_ws_newline_indent.
    rewrite starts_value_skip_ws by apply starts_value_iterencode.
    fold (more_items level ys). rewrite HA; [reflexivity | lia | exact Hxs].
Qed.

Lemma object_items_step (n : nat) :
  scan_once_spec n -> object_items_spec n -> object_items_spec (S n).
Proof.
  intros HS HO k x kxs level rest Hw Hwf.
  rewrite list_sum_map_cons in Hw. cbn [snd] in Hw. cbn [forallb snd] in Hwf.
  apply andb_true_iff in Hwf as [Hx Hxs].
  destruct (scanstring_basestring k
              ([":"; " "]%char ++ iterencode (S level) x ++ more_members level kxs
                 ++ newline_indent level ++ "}"%char :: rest)) as (r & -> & Hk).
  cbn [object_items Ascii.eqb Bool.eqb]. rewrite Hk.
  cbn [app skip_ws is_ws Ascii.eqb Bool.eqb orb].
  rewrite starts_value_skip_ws by apply starts_value_iterencode.
  rewrite HS; [ | lia | exact Hx | apply ends_number_more_members ].
  unfold text_of. rewrite string_of_list_ascii_of_string.
  destruct kxs as [|[k' y] kys].
  - cbn [more_members flat_map app]. rewrite skip_ws_newline_indent. reflexivity.
  - unfold more_members. cbn [flat_map app skip_ws is_ws Ascii.eqb Bool.eqb orb fst snd].
    repeat rewrite <- app_assoc. rewrite skip_ws_newline_indent.
    specialize (HO k' y kys level rest ltac:(lia) Hxs).
    unfold more_members in HO. cbn [app] in HO.
    unfold encode_basestring at 1. unfold encode_basestring at 1 in HO.
    cbn [app skip_ws is_ws Ascii.eqb Bool.eqb orb] in HO |- *.
    rewrite HO. reflexivity.
Qed.

Lemma scanners_spec (n : nat) :
  scan_once_spec n /\ array_items_spec n /\ object_items_spec n.
Proof.
  induction n as [|n (HS & HA & HO)].
  - repeat split.
    + intros v ? ? Hw. destruct v; cbn in Hw; lia.
    + intros x xs ? ? Hw. cbn in Hw. lia.
    + intros k x kxs ? ? Hw. cbn in Hw. lia.
  - auto using scan_once_step, array_items_step, object_items_step.
Qed.

(** The bound [loads] puts on the nested calls is enough for what
    [dumps] writes. *)
Lemma weight_le_length (n : nat) :
  forall v level, weight v <= n -> weight v <= S (length (iterencode level v)).
Proof.
  induction n as [|n IH]; intros v level Hn.
  { destruct v; cbn in Hn; lia. }
  destruct v as [|[]|z|s|[|x xs]|[|[k x] kxs]]; try (cbn; lia).
  - rewrite iterencode_list. cbn [weight] in *. rewrite list_sum_map_cons in *.
    assert (Hxs : list_sum (map (fun y => S (weight y)) xs)
                  <= length (more_items level xs)).
    { assert (Hb : list_sum (map (fun y => S (weight y)) xs) <= n) by lia.
      clear Hn. induction xs as [|y ys IHys]; [cbn; lia|].
      rewrite list_sum_map_cons in *. unfold more_items in *.
      cbn [flat_map]. rewrite length_app. cbn [length]. rewrite !length_app.
      specialize (IH y (S level) ltac:(lia)). specialize (IHys ltac:(lia)).
      cbn [newline_indent length]. lia. }
    specialize (IH x (S level) ltac:(lia)).
    cbn [length]. rewrite !length_app. cbn [newline_indent length]. lia.
  - rewrite iterencode_dict. cbn [weight] in *. rewrite list_sum_map_cons in *.
    cbn [snd] in *.
    assert (Hxs : list_sum (map (fun ky => S (weight (snd ky))) kxs)
                  <= length (more_members level kxs)).
    { assert (Hb : list_sum (map (fun ky => S (weight (snd ky))) kxs) <= n) by lia.
      clear Hn. induction kxs as [|[k' y] kys IHkys]; [cbn; lia|].
      rewrite list_sum_map_cons in *. unfold more_members in *.
      cbn [flat_map snd fst] in *. rewrite length_app. cbn [length]. rewrite !length_app.
      specialize (IH y (S level) ltac:(lia)). specialize (IHkys ltac:(lia)).
      cbn [newline_indent length]. lia. }
    specialize (IH x (S level) ltac:(lia)).
    cbn [length]. rewrite !length_app. cbn [newline_indent length]. lia.
Qed.

(** [json.loads(json.dumps(v, ensure_ascii=False, indent=2)) == v] *)
Lemma loads_dumps (v : pyval) :
  pyval_wf v = true -> loads (dumps v) = Some v.
Proof.
  intros Hwf. unfold loads, dumps.
  rewrite starts_value_skip_ws
    by (rewrite <- (app_nil_r (iterencode 0 v)); apply starts_value_iterencode).
  destruct (scanners_spec (S (length (iterencode 0 v)))) as (HS & _).
  specialize (HS v 0 [] (weight_le_length _ v 0 (le_n _)) Hwf I).
  rewrite app_nil_r in HS. rewrite HS. reflexivity.
Qed.

End JSON_roundtrip.

(** ** What the scanner returns has distinct keys in every dict *)
Section JSON_wf.
Import JSON.

Lemma match_number_wf s v r : match_number s = Some (v, r) -> pyval_wf v = true.
Proof.
  unfold match_number. destruct s as [|c s']; [discriminate|].
  destruct (Ascii.eqb c "-").
  - destruct (scan_int_part s') as [[d r']|]; [|discriminate].
    destruct (float_follows r'); [discriminate|]. intros [= <- _]. reflexivity.
  - destruct (scan_int_part (c :: s')) as [[d r']|]; [|discriminate].
    destruct (float_follows r'); [discriminate|]. intros [= <- _]. reflexivity.
Qed.

Lemma dict_set_keys (d : list (string * pyval)) k v :
  map fst (dict_set d k v)
  = if existsb (String.eqb k) (map fst d) then map fst d else map fst d ++ [k].
Proof.
  induction d as [|[k' v'] d IH]; cbn; [reflexivity|].
  rewrite (String.eqb_sym k k'). destruct (String.eqb k' k); cbn; [reflexivity|].
  rewrite IH. destruct (existsb _ _); reflexivity.
Qed.

Lemma nodup_keys_snoc ks k :
  nodup_keys ks = true -> existsb (String.eqb k) ks = false ->
  nodup_keys (ks ++ [k]) = true.
Proof.
  induction ks as [|k' ks IH]; cbn; [reflexivity|].
  intros H Hk. apply andb_true_iff in H as [H1 H2].
  apply orb_false_iff in Hk as [Hk1 Hk2].
  rewrite existsb_app. cbn. rewrite (String.eqb_sym k' k), Hk1, orb_false_r.
  rewrite H1. cbn. apply IH; assumption.
Qed.

Lemma dict_set_wf (d : list (string * pyval)) k v :
  nodup_keys (map fst d) = true ->
  forallb (fun kv => pyval_wf (snd kv)) d = true ->
  pyval_wf v = true ->
  nodup_keys (map fst (dict_set d k v)) = true
  /\ forallb (fun kv => pyval_wf (snd kv)) (dict_set d k v) = true.
Proof.
  intros Hn Hd Hv. split.
  - rewrite dict_set_keys. destruct (existsb _ _) eqn:E; [exact Hn|].
    apply nodup_keys_snoc; assumption.
  - clear Hn. induction d as [|[k' v'] d IH]; cbn in *.
    + rewrite Hv. reflexivity.
    + apply andb_true_iff in Hd as [H1 H2].
      destruct (String.eqb k' k); cbn; [rewrite Hv | rewrite H1, (IH H2)];
        try reflexivity. exact H2.
Qed.

Lemma dict_of_pairs_wf pairs :
  forallb (fun kv => pyval_wf (snd kv)) pairs = true ->
  pyval_wf (PDict (dict_of_pairs pairs)) = true.
Proof.
  unfold dict_of_pairs. cbn [pyval_wf].
  assert (H : forall acc,
             nodup_keys (map fst acc) = true ->
             forallb (fun kv => pyval_wf (snd kv)) acc = true ->
             forallb (fun kv => pyval_wf (snd kv)) pairs = true ->
             nodup_keys
               (map fst (fold_left (fun d kv => dict_set d (fst kv) (snd kv)) pairs acc))
             && forallb (fun kv => pyval_wf (snd kv))
                  (fold_left (fun d kv => dict_set d (fst kv) (snd kv)) pairs acc)
             = true).
  { induction pairs as [|[k v] pairs IH]; intros acc Hn Ha Hp; cbn [fold_left].
    - rewrite Hn, Ha. reflexivity.
    - cbn [forallb snd fst] in *. apply andb_true_iff in Hp as [Hv Hp].
      destruct (dict_set_wf acc k v Hn Ha Hv) as [Hn' Ha'].
      apply IH; assumption. }
  intros Hp. apply H; [reflexivity | reflexivity | exact Hp].
Qed.

Lemma scan_once_wf_step (n : nat) :
  array_items_wf n -> object_items_wf n -> scan_once_wf (S n).
Proof.
  intros HA HO s v r H. cbn [scan_once] in H.
  destruct s as [|c s']; [discriminate H|].
  destruct (Ascii.eqb c "034").
  { destruct (scanstring s') as [[t r']|]; [|discriminate H].
    injection H as <- _. reflexivity. }
  destruct (Ascii.eqb c "{").
  { destruct (skip_ws s') as [|c' r']; [discriminate H|].
    destruct (Ascii.eqb c' "}"); [injection H as <- _; reflexivity|].
    destruct (object_items n (c' :: r')) as [[pairs r'']|] eqn:E; [|discriminate H].
    injection H as <- _. apply dict_of_pairs_wf. exact (HO _ _ _ E). }
  destruct (Ascii.eqb c "[").
  { destruct (skip_ws s') as [|c' r']; [discriminate H|].
    destruct (Ascii.eqb c' "]"); [injection H as <- _; reflexivity|].
    destruct (array_items n (c' :: r')) as [[values r'']|] eqn:E; [|discriminate H].
    injection H as <- _. exact (HA _ _ _ E). }
  repeat match type of H with
         | match ?x with _ => _ end = _ => is_var x; destruct x
         end;
    first [ exact (match_number_wf _ _ _ H) | injection H as <- _; reflexivity ].
Qed.

Lemma array_items_wf_step (n : nat) :
  scan_once_wf n -> array_items_wf n -> array_items_wf (S n).
Proof.
  intros HS HA s vs r H. cbn [array_items] in H.
  destruct (scan_once n s) as [[v r0]|] eqn:Ev; [|discriminate H].
  pose proof (HS _ _ _ Ev) as Hv.
  destruct (skip_ws r0) as [|c r']; [discriminate H|].
  destruct (Ascii.eqb c "]").
  { injection H as <- _. cbn. rewrite Hv. reflexivity. }
  destruct (Ascii.eqb c ","); [|discriminate H].
  destruct (array_items n (skip_ws r')) as [[vs' r'']|] eqn:E; [|discriminate H].
  injection H as <- _. cbn. rewrite Hv. exact (HA _ _ _ E).
Qed.

Lemma object_items_wf_step (n : nat) :
  scan_once_wf n -> object_items_wf n -> object_items_wf (S n).
Proof.
  intros HS HO s kvs r H. cbn [object_items] in H.
  destruct s as [|c s']; [discriminate H|].
  destruct (Ascii.eqb c "034"); [|discriminate H].
  destruct (scanstring s') as [[k r1]|]; [|discriminate H].
  destruct (skip_ws r1) as [|c1 r2]; [discriminate H|].
  destruct (Ascii.eqb c1 ":"); [|discriminate H].
  destruct (scan_once n (skip_ws r2)) as [[v r3]|] eqn:Ev; [|discriminate H].
  pose proof (HS _ _ _ Ev) as Hv.
  destruct (skip_ws r3) as [|c2 r4]; [discriminate H|].
  destruct (Ascii.eqb c2 "}").
  { injection H as <- _. cbn. rewrite Hv. reflexivity. }
  destruct (Ascii.eqb c2 ","); [|discriminate H].
  destruct (object_items n (skip_ws r4)) as [[kvs' r5]|] eqn:E; [|discriminate H].
  injection H as <- _. cbn. rewrite Hv. exact (HO _ _ _ E).
Qed.

Lemma scanners_wf (n : nat) : scan_once_wf n /\ array_items_wf n /\ object_items_wf n.
Proof.
  induction n as [|n (HS & HA & HO)].
  - repeat split; intros ? ? ? H; discriminate H.
  - auto using scan_once_wf_step, array_items_wf_step, object_items_wf_step.
Qed.

Lemma loads_wf (s : text) (v : pyval) : loads s = Some v -> pyval_wf v = true.
Proof.
  unfold loads.
  destruct (scan_once (S (length s)) (skip_ws s)) as [[v' r]|] eqn:E; [|discriminate].
  destruct (skip_ws r); [|discriminate]. intros [= <-].
  exact (proj1 (scanners_wf _) _ _ _ E).
Qed.

End JSON_wf.

(** ** The monad *)

Lemma bind_eq {A B} (m : M A) (f : A -> M B) (w : world) :
  (m ≫= f) w = match m w with
               | (inr a, w') => f a w'
               | (inl e, w') => (inl e, w')
               end.
Proof. reflexivity. Qed.

Lemma comprehension_lift (l : list pyval) (w : world) :
  comprehension (fun msg => lift (message_of msg)) l w = (messages_of l, w).
Proof.
  induction l as [|msg l IH]; [reflexivity|].
  cbn [comprehension messages_of]. rewrite bind_eq. unfold lift at 1.
  destruct (message_of msg) as [e|m]; [reflexivity|].
  rewrite bind_eq, IH. destruct (messages_of l); reflexivity.
Qed.

(** ** get_response, case by case *)

Lemma add_to_history_list role content l w :
  conversation_history (chat w) = PList l ->
  add_to_history role content w = (inr tt, appended role content l w).
Proof.
  intros H. unfold add_to_history. rewrite bind_eq. cbn [self].
  rewrite H. reflexivity.
Qed.

Lemma add_to_history_not_list role content w :
  (forall l, conversation_history (chat w) <> PList l) ->
  add_to_history role content w = (inl AttributeError, w).
Proof.
  intros H. unfold add_to_history. rewrite bind_eq. cbn [self].
  destruct (conversation_history (chat w)); try reflexivity.
  exfalso. eapply H. reflexivity.
Qed.

Lemma get_response_eq u l w :
  conversation_history (chat w) = PList l ->
  get_response u w =
  let w1 := appended "user" (PStr u) l w in
  match request_for (chat w) (l ++ [turn "user" (PStr u) (clock w (ticks w))]) with
  | inl e => caught e w1
  | inr a =>
      let w2 := requested a w1 in
      match service w (calls w) a with
      | InvokeRaises e => caught e w2
      | InvokeReturns b =>
          match reply_of b with
          | inl e => caught e w2
          | inr v =>
              (inr v, appended "assistant" v
                        (l ++ [turn "user" (PStr u) (clock w (ticks w))]) w2)
          end
      end
  end.
Proof.
  intros H. unfold get_response, try_except.
  rewrite bind_eq, (add_to_history_list _ _ _ _ H).
  rewrite bind_eq. cbn [self]. rewrite bind_eq.
  cbn [appended chat with_ticks with_chat with_history conversation_history].
  rewrite comprehension_lift. unfold request_for.
  cbn [current_role model_id].
  destruct (messages_of _) as [e|ms]; [destruct e; reflexivity|].
  rewrite bind_eq. unfold lookup_key.
  cbn [current_role model_id with_history].
  destruct (dict_get ROLE_PROMPTS (current_role (chat w))) as [p|]; [|reflexivity].
  cbn [mret M_ret]. rewrite bind_eq. unfold invoke_model. rewrite bind_eq.
  unfold emit, call_service.
  cbn [service calls with_trace with_calls appended with_ticks with_chat].
  destruct (service w (calls w) _) as [e|b]; [destruct e; reflexivity|].
  rewrite bind_eq. unfold lift at 1.
  destruct (reply_of b) as [e|v]; [destruct e; reflexivity|].
  rewrite bind_eq. erewrite add_to_history_list by reflexivity. reflexivity.
Qed.

(** ** Roles *)

Lemma dict_has_keys {A} (d : list (string * A)) (k : string) :
  dict_has d k = true <-> k ∈ dict_keys d.
Proof.
  unfold dict_has, dict_keys. induction d as [|[k' v] d IH]; cbn.
  - split; [discriminate | intros H; inversion H].
  - rewrite elem_of_cons. destruct (String.eqb k' k) eqn:E.
    + apply String.eqb_eq in E. subst. tauto.
    + apply String.eqb_neq in E. rewrite IH. split; [tauto|].
      intros [->|H]; [contradiction | exact H].
Qed.

Lemma role_prompts_keys : dict_keys ROLE_PROMPTS = role_names.
Proof. reflexivity. Qed.

Lemma dict_has_role_prompts (x : string) :
  dict_has ROLE_PROMPTS x = bool_decide (x ∈ role_names).
Proof.
  rewrite <- role_prompts_keys. apply eq_true_iff_eq.
  rewrite bool_decide_eq_true. apply dict_has_keys.
Qed.

Lemma set_role_eq (x : string) (w : world) :
  set_role x w =
  if dict_has ROLE_PROMPTS x
  then (inr true, with_chat (with_role x (chat w)) w)
  else (inr false, w).
Proof.
  unfold set_role. rewrite bind_eq. cbn [self].
  destruct (dict_has ROLE_PROMPTS x); reflexivity.
Qed.

(** C3. [set_role x] succeeds exactly on the six registered names: for one
    of them it returns [True] and the current role becomes [x]; for any
    other string it returns [False] and the world is left as it was. *)
Theorem set_role_registered (x : string) (w : world) :
  set_role x w =
  if bool_decide (x ∈ ["default"; "translator"; "programmer"; "teacher";
                       "business_analyst"; "aws_sa"])
  then (inr true, with_chat (with_role x (chat w)) w)
  else (inr false, w).
Proof.
  rewrite set_role_eq, dict_has_role_prompts. reflexivity.
Qed.

(** C8. Whatever the history was, [clear_history] returns normally and
    the history read afterwards is the empty list. *)
Theorem clear_history_empty (w : world) :
  fst (clear_history w) = inr tt
  /\ conversation_history (chat (snd (clear_history w))) = PList [].
Proof. split; reflexivity. Qed.

(** C9. Frame conditions.  [set_role] changes at most the current role:
    the history, the model identifier and the rest of the world are as
    before, whether the switch succeeds or not.  [clear_history] changes at
    most the history: the current role, the model identifier and the rest
    of the world are as before. *)
Theorem set_role_clear_history_frame (x : string) (w : world) :
  (let w' := snd (set_role x w) in
   w' = with_chat (with_role (current_role (chat w')) (chat w)) w
   /\ conversation_history (chat w') = conversation_history (chat w)
   /\ model_id (chat w') = model_id (chat w))
  /\
  (let w' := snd (clear_history w) in
   w' = with_chat (with_history (conversation_history (chat w')) (chat w)) w
   /\ current_role (chat w') = current_role (chat w)
   /\ model_id (chat w') = model_id (chat w)).
Proof.
  split.
  - rewrite set_role_eq. destruct (dict_has ROLE_PROMPTS x); cbn; repeat split.
    destruct w as [[] ? ? ? ? ? ? ?]. reflexivity.
  - cbn. repeat split.
Qed.

(** ** Loading *)

Lemma load_conversation_eq (f : string) (w : world) :
  load_conversation f w =
  match files w !! f with
  | None => (inr tt, with_trace (trace w ++ [Print [PStr "找不到歷史對話檔案"]]) w)
  | Some Directory => (inl OSError, w)
  | Some (File data) =>
      match JSON.loads data with
      | None => (inl JSONDecodeError, w)
      | Some v =>
          (inr tt,
           with_trace (trace w ++ [Print [PStr "對話歷史已載入"]])
             (with_chat (with_history v (chat w)) w))
      end
  end.
Proof.
  unfold load_conversation, try_except. rewrite bind_eq. unfold read_file.
  destruct (files w !! f) as [[data|]|]; try reflexivity.
  rewrite bind_eq. unfold json_load.
  destruct (JSON.loads data); reflexivity.
Qed.

(** C7. When the file to load does not exist, [load_conversation] prints
    its own "not found" message, returns normally and changes nothing else:
    the history is as before.  Any other failure of the load (the path is a
    directory, the file does not decode) is raised to the caller instead
    and prints nothing; and when the file exists the "not found" message is
    never what is printed. *)
Theorem load_conversation_not_found (f : string) (w : world) :
  files w !! f = None ->
  load_conversation f w
  = (inr tt, with_trace (trace w ++ [Print [PStr "找不到歷史對話檔案"]]) w)
  /\ conversation_history (chat (snd (load_conversation f w)))
     = conversation_history (chat w)
  /\ (forall w2 : world,
        (files w2 !! f = Some Directory ->
         load_conversation f w2 = (inl OSError, w2))
        /\ (forall data, files w2 !! f = Some (File data) ->
            JSON.loads data = None ->
            load_conversation f w2 = (inl JSONDecodeError, w2))
        /\ (forall n, files w2 !! f = Some n ->
            trace (snd (load_conversation f w2))
            <> trace w2 ++ [Print [PStr "找不到歷史對話檔案"]])).
Proof.
  intros H. rewrite load_conversation_eq, H. repeat split.
  - intros Hd. rewrite load_conversation_eq, Hd. reflexivity.
  - intros data Hd Hl. rewrite load_conversation_eq, Hd, Hl. reflexivity.
  - intros n Hn. rewrite load_conversation_eq, Hn.
    destruct n as [data|]; [destruct (JSON.loads data)|]; cbn.
    + intros E. apply app_inv_head in E. discriminate E.
    + intros E. apply (f_equal length) in E. rewrite length_app in E.
      cbn in E. lia.
    + intros E. apply (f_equal length) in E. rewrite length_app in E.
      cbn in E. lia.
Qed.

Lemma load_conversation_not_found_witness :
  files (example_world [] no_service) !! "chat_history.json" = None
  /\ conversation_history
       (chat (snd (load_conversation "chat_history.json"
                     (example_world [] no_service))))
     = PList [].
Proof.
  split; [reflexivity|].
  apply (load_conversation_not_found "chat_history.json"). reflexivity.
Defined.

(** ** The command loop *)

(** C10. When the line typed is empty once stripped, a turn of the command
    loop leaves the session as it was: it writes the prompt, reads the
    line and ends with [continue]; the history and the current role are
    unchanged, no request is sent, no time is read, no file is touched. *)
Theorem main_iteration_blank (s : string) (rest : list stdin_event) (w : world) :
  stdin w = Line s :: rest ->
  Str.strip s = "" ->
  main_iteration w
  = (inr Continue,
     with_stdin rest (with_trace (trace w ++ [Prompt (Str.nl +:+ "你: ")]) w)).
Proof.
  intros Hin Hs. unfold main_iteration, try_except, loop_body.
  rewrite bind_eq. unfold input. rewrite bind_eq. unfold emit, read_line.
  cbn [stdin with_trace]. rewrite Hin, Hs. reflexivity.
Qed.

Lemma main_iteration_blank_witness :
  Str.strip "   " = ""
  /\ chat (snd (main_iteration (example_world [Line "   "; Line "quit"] no_service)))
     = BedrockChat_init "default"
  /\ calls (snd (main_iteration (example_world [Line "   "; Line "quit"] no_service)))
     = 0.
Proof.
  split; [reflexivity|].
  rewrite (main_iteration_blank "   " [Line "quit"]) by reflexivity.
  split; reflexivity.
Defined.

(** The [load] command on a missing file: the turn ends with [continue]
    and the session is as it was. *)
Lemma main_iteration_load_missing (s : string) (rest : list stdin_event) (w : world) :
  stdin w = Line s :: rest ->
  Str.lower (Str.strip s) = "load" ->
  files w !! "chat_history.json" = None ->
  main_iteration w
  = (inr Continue,
     with_trace (trace w ++ [Prompt (Str.nl +:+ "你: ");
                             Print [PStr "找不到歷史對話檔案"]])
       (with_stdin rest w)).
Proof.
  intros Hin Hs Hf. unfold main_iteration, try_except, loop_body.
  rewrite bind_eq. unfold input. rewrite bind_eq. unfold emit, read_line.
  cbn [stdin with_trace]. rewrite Hin, Hs.
  cbn [String.eqb Ascii.eqb Bool.eqb].
  change (Str.startswith "load" "help ") with false. cbv iota.
  rewrite bind_eq, load_conversation_eq.
  cbn [files with_stdin with_trace]. rewrite Hf.
  cbn [with_trace with_stdin trace chat files stdin clock ticks service calls mret M_ret].
  rewrite <- app_assoc. reflexivity.
Qed.

(** ** The invariant is kept by every statement of the class *)

Lemma keeps_chat_preserves {A} (m : M A) : keeps_chat m -> preserves m.
Proof. intros H w r w' Hok E. rewrite (H _ _ _ E). exact Hok. Qed.

Lemma preserves_ret {A} (a : A) : preserves (mret a).
Proof. intros w r w' Hok E. injection E as _ <-. exact Hok. Qed.

Lemma preserves_raise {A} (e : exn) : preserves (@raise A e).
Proof. intros w r w' Hok E. injection E as _ <-. exact Hok. Qed.

Lemma preserves_lift {A} (x : exn + A) : preserves (lift x).
Proof. intros w r w' Hok E. injection E as _ <-. exact Hok. Qed.

Lemma preserves_bind {A B} (m : M A) (f : A -> M B) :
  preserves m -> (forall a, preserves (f a)) -> preserves (m ≫= f).
Proof.
  intros Hm Hf w r w' Hok E. rewrite bind_eq in E.
  destruct (m w) as [[e|a] w1] eqn:Em.
  - injection E as _ <-. exact (Hm _ _ _ Hok Em).
  - exact (Hf a _ _ _ (Hm _ _ _ Hok Em) E).
Qed.

Lemma preserves_bind_returns {A B} (P : A -> Prop) (m : M A) (f : A -> M B) :
  preserves m -> returns P m -> (forall a, P a -> preserves (f a)) ->
  preserves (m ≫= f).
Proof.
  intros Hm HP Hf w r w' Hok E. rewrite bind_eq in E.
  destruct (m w) as [[e|a] w1] eqn:Em.
  - injection E as _ <-. exact (Hm _ _ _ Hok Em).
  - exact (Hf a (HP _ _ _ Em) _ _ _ (Hm _ _ _ Hok Em) E).
Qed.

Lemma preserves_self {B} (f : BedrockChat -> M B) :
  (forall s, chat_ok s -> preserves (f s)) -> preserves (self ≫= f).
Proof. intros Hf w r w' Hok E. exact (Hf _ Hok _ _ _ Hok E). Qed.

Lemma preserves_set_self (c : BedrockChat) : chat_ok c -> preserves (set_self c).
Proof. intros Hc w r w' _ E. injection E as _ <-. exact Hc. Qed.

Lemma preserves_emit ev : preserves (emit ev).
Proof. apply keeps_chat_preserves. intros w r w' E. injection E as _ <-. reflexivity. Qed.

Lemma preserves_read_line : preserves read_line.
Proof.
  apply keeps_chat_preserves. intros w r w' E. unfold read_line in E.
  destruct (stdin w) as [|[s|] rest]; injection E as _ <-; reflexivity.
Qed.

Lemma preserves_now : preserves now_isoformat.
Proof. apply keeps_chat_preserves. intros w r w' E. injection E as _ <-. reflexivity. Qed.

Lemma preserves_call_service a : preserves (call_service a).
Proof.
  apply keeps_chat_preserves. intros w r w' E. unfold call_service in E.
  destruct (service w (calls w) a); injection E as _ <-; reflexivity.
Qed.

Lemma preserves_read_file f : preserves (read_file f).
Proof.
  apply keeps_chat_preserves. intros w r w' E. unfold read_file in E.
  destruct (files w !! f) as [[|]|]; injection E as _ <-; reflexivity.
Qed.

Lemma preserves_write_file f data : preserves (write_file f data).
Proof.
  apply keeps_chat_preserves. intros w r w' E. unfold write_file in E.
  destruct (files w !! f) as [[|]|]; injection E as _ <-; reflexivity.
Qed.

Lemma preserves_handle {A} (hs : list ((exn -> bool) * (exn -> M A))) e :
  Forall (fun h => forall e, preserves (snd h e)) hs -> preserves (handle hs e).
Proof.
  induction 1 as [|[c h] hs Hh _ IH]; cbn [handle].
  - apply preserves_raise.
  - destruct (c e); [apply Hh | apply IH].
Qed.

Lemma preserves_try_except {A} (body : M A) hs :
  preserves body -> Forall (fun h => forall e, preserves (snd h e)) hs ->
  preserves (try_except body hs).
Proof.
  intros Hb Hh w r w' Hok E. unfold try_except in E.
  destruct (body w) as [[e|a] w1] eqn:Eb.
  - exact (preserves_handle hs e Hh _ _ _ (Hb _ _ _ Hok Eb) E).
  - injection E as _ <-. exact (Hb _ _ _ Hok Eb).
Qed.

Lemma preserves_try_except1 {A} (body : M A) c h :
  preserves body -> (forall e, preserves (h e)) ->
  preserves (try_except body [(c, h)]).
Proof.
  intros Hb Hh. apply preserves_try_except; [exact Hb|].
  constructor; [exact Hh | constructor].
Qed.

Lemma preserves_try_except2 {A} (body : M A) c1 h1 c2 h2 :
  preserves body -> (forall e, preserves (h1 e)) -> (forall e, preserves (h2 e)) ->
  preserves (try_except body [(c1, h1); (c2, h2)]).
Proof.
  intros Hb H1 H2. apply preserves_try_except; [exact Hb|].
  constructor; [exact H1|]. constructor; [exact H2 | constructor].
Qed.

Lemma preserves_for_each {A} (l : list A) (body : A -> M unit) :
  (forall x, preserves (body x)) -> preserves (for_each l body).
Proof.
  intros Hb. induction l as [|x l IH]; cbn [for_each].
  - apply preserves_ret.
  - apply preserves_bind; [apply Hb | intros _; exact IH].
Qed.

Lemma preserves_comprehension {A B} (f : A -> M B) (l : list A) :
  (forall x, preserves (f x)) -> preserves (comprehension f l).
Proof.
  intros Hf. induction l as [|x l IH]; cbn [comprehension].
  - apply preserves_ret.
  - apply preserves_bind; [apply Hf | intros y].
    apply preserves_bind; [exact IH | intros ys; apply preserves_ret].
Qed.

Lemma preserves_lookup_key {A} (d : list (string * A)) k : preserves (lookup_key d k).
Proof.
  unfold lookup_key. destruct (dict_get d k); [apply preserves_ret | apply preserves_raise].
Qed.

Lemma chat_ok_with_history h c :
  pyval_wf h = true -> chat_ok c -> chat_ok (with_history h c).
Proof. intros Hh (Hr & Hm & Ha & _). repeat split; assumption. Qed.

Lemma chat_ok_with_role r c :
  dict_has ROLE_PROMPTS r = true -> chat_ok c -> chat_ok (with_role r c).
Proof. intros Hr (_ & Hm & Ha & Hh). repeat split; assumption. Qed.

Create HintDb preserves.
#[local] Hint Resolve preserves_ret preserves_raise preserves_lift preserves_emit
  preserves_read_line preserves_now preserves_call_service preserves_read_file
  preserves_write_file preserves_lookup_key preserves_set_self
  chat_ok_with_history chat_ok_with_role : preserves.

Ltac preserves_step :=
  first
    [ solve [ eauto with preserves ]
    | apply preserves_self; intros ? ?
    | apply preserves_bind; [ | intros ? ]
    | apply preserves_try_except1; [ | intros ? ]
    | apply preserves_try_except2; [ | intros ? | intros ? ]
    | apply preserves_for_each; intros ?
    | apply preserves_comprehension; intros ? ].

Lemma preserves_print args : preserves (print args).
Proof. apply preserves_emit. Qed.

Lemma preserves_print_str s : preserves (print_str s).
Proof. apply preserves_emit. Qed.

Lemma preserves_input p : preserves (input p).
Proof. unfold input. repeat preserves_step. Qed.

Lemma preserves_invoke_model a : preserves (invoke_model a).
Proof. unfold invoke_model. repeat preserves_step. Qed.

#[local] Hint Resolve preserves_print preserves_print_str preserves_input
  preserves_invoke_model : preserves.

Lemma preserves_show_help command : preserves (show_help command).
Proof.
  unfold show_help. preserves_step.
  destruct command as [c|]; [destruct (_ && _)|]; repeat preserves_step;
    match goal with |- preserves (let '(_, _) := ?x in _) => destruct x end;
    repeat preserves_step.
Qed.

Lemma preserves_show_current_role : preserves show_current_role.
Proof. unfold show_current_role. repeat preserves_step. Qed.

Lemma preserves_set_role r : preserves (set_role r).
Proof.
  unfold set_role. preserves_step.
  destruct (dict_has ROLE_PROMPTS r) eqn:E; repeat preserves_step.
Qed.

Lemma preserves_add_to_history role content :
  pyval_wf content = true -> preserves (add_to_history role content).
Proof.
  intros Hc. unfold add_to_history. apply preserves_self. intros s Hs.
  destruct (conversation_history s) as [| | | |l|] eqn:Hl; repeat preserves_step.
  apply preserves_set_self, chat_ok_with_history; [|exact Hs].
  destruct Hs as (_ & _ & _ & Hh). rewrite Hl in Hh. cbn [pyval_wf] in Hh |- *.
  rewrite forallb_app, Hh. cbn. rewrite Hc. reflexivity.
Qed.

Lemma getitem_str_wf v k x :
  pyval_wf v = true -> getitem_str v k = inr x -> pyval_wf x = true.
Proof.
  destruct v as [| | | | |d]; cbn; try discriminate.
  intros H. apply andb_true_iff in H as [_ H].
  induction d as [|[k' v'] d IH]; cbn in *; [discriminate|].
  apply andb_true_iff in H as [H1 H2].
  destruct (String.eqb k' k); [intros [= <-]; exact H1 | exact (IH H2)].
Qed.

Lemma getitem_0_wf v x :
  pyval_wf v = true -> getitem_0 v = inr x -> pyval_wf x = true.
Proof.
  destruct v as [| | |s|[|y l]|d]; cbn; try discriminate.
  - destruct s; [discriminate | intros _ [= <-]; reflexivity].
  - intros H [= <-]. apply andb_true_iff in H as [H _]. exact H.
Qed.

Lemma returns_reply_of b : returns (fun v => pyval_wf v = true) (lift (reply_of b)).
Proof.
  intros w v w' [= E _]. unfold reply_of in E.
  destruct (JSON.loads b) as [rb|] eqn:Eb; [|discriminate E].
  pose proof (loads_wf _ _ Eb) as Hrb.
  destruct (getitem_str rb "content") as [|content] eqn:E1; [discriminate E|].
  destruct (getitem_0 content) as [|block] eqn:E2; [discriminate E|].
  eapply getitem_str_wf; [|exact E].
  eapply getitem_0_wf; [|exact E2].
  eapply getitem_str_wf; [exact Hrb | exact E1].
Qed.

Lemma returns_json_load data : returns (fun v => pyval_wf v = true) (json_load data).
Proof.
  intros w v w'. unfold json_load.
  destruct (JSON.loads data) as [v'|] eqn:E; [|discriminate].
  intros [= <- _]. exact (loads_wf _ _ E).
Qed.

#[local] Hint Resolve preserves_show_help preserves_show_current_role
  preserves_set_role : preserves.

Lemma preserves_get_response u : preserves (get_response u).
Proof.
  unfold get_response. apply preserves_try_except1; [|intros e; repeat preserves_step].
  apply preserves_bind; [apply preserves_add_to_history; reflexivity | intros _].
  apply preserves_self. intros s Hs.
  apply preserves_bind;
    [destruct (conversation_history s); repeat preserves_step | intros ms].
  apply preserves_bind; [repeat preserves_step | intros prompt].
  apply preserves_bind; [repeat preserves_step | intros response].
  apply (preserves_bind_returns (fun v => pyval_wf v = true));
    [repeat preserves_step | apply returns_reply_of | intros v Hv].
  apply preserves_bind; [apply preserves_add_to_history, Hv | intros _].
  repeat preserves_step.
Qed.

Lemma preserves_clear_history : preserves clear_history.
Proof. unfold clear_history. repeat preserves_step. Qed.

Lemma preserves_save_conversation f : preserves (save_conversation f).
Proof. unfold save_conversation. repeat preserves_step. Qed.

Lemma preserves_json_load data : preserves (json_load data).
Proof. unfold json_load. destruct (JSON.loads data); repeat preserves_step. Qed.

Lemma preserves_load_conversation f : preserves (load_conversation f).
Proof.
  unfold load_conversation.
  apply preserves_try_except1; [|intros e; repeat preserves_step].
  apply preserves_bind; [repeat preserves_step | intros data].
  apply (preserves_bind_returns (fun v => pyval_wf v = true));
    [apply preserves_json_load | apply returns_json_load | intros v Hv].
  repeat preserves_step.
Qed.

#[local] Hint Resolve preserves_get_response preserves_clear_history
  preserves_save_conversation preserves_load_conversation : preserves.

Lemma preserves_run_call c : preserves (run_call c).
Proof. destruct c; cbn [run_call]; repeat preserves_step. Qed.

Lemma preserves_loop_body : preserves loop_body.
Proof.
  unfold loop_body. preserves_step; [eauto with preserves|].
  repeat match goal with
         | |- preserves (if ?b then _ else _) => destruct b
         end; repeat preserves_step.
  - unfold second. destruct (Str.split _) as [|? [|? ?]]; repeat preserves_step.
  - destruct (negb _); repeat preserves_step.
    match goal with |- preserves (if ?b then _ else _) => destruct b end;
      repeat preserves_step.
  - destruct (truthy _); repeat preserves_step.
Qed.

Lemma preserves_main_iteration : preserves main_iteration.
Proof.
  unfold main_iteration.
  apply preserves_try_except2; [apply preserves_loop_body | intros ? ..];
    repeat preserves_step.
Qed.

Lemma chat_ok_init : chat_ok (BedrockChat_init "default").
Proof. repeat split. Qed.

Lemma reachable_chat_ok (w : world) : reachable w -> chat_ok (chat w).
Proof.
  induction 1 as [w H|w c r w' _ IH E|w r w' _ IH E|w fs i _ IH].
  - rewrite H. apply chat_ok_init.
  - exact (preserves_run_call c _ _ _ IH E).
  - exact (preserves_main_iteration _ _ _ IH E).
  - exact IH.
Qed.

(** C4. In every world a session can reach (the instance constructed as
    [main] constructs it, then any sequence of role switches, turns,
    clears, saves, loads, displays and turns of the command loop, ending
    normally or not), the current role is a key of [ROLE_PROMPTS]: the
    lookup [ROLE_PROMPTS[self.current_role]] returns a prompt,
    [show_current_role] ends normally, and when [get_response] cannot build
    its request the failure comes from the comprehension over the history,
    never from the role lookup. *)
Theorem current_role_registered (w : world) :
  reachable w ->
  current_role (chat w) ∈ dict_keys ROLE_PROMPTS
  /\ (exists prompt,
        lookup_key ROLE_PROMPTS (current_role (chat w)) w = (inr prompt, w))
  /\ fst (show_current_role w) = inr tt
  /\ (forall history e,
        request_for (chat w) history = inl e -> messages_of history = inl e).
Proof.
  intros Hr. destruct (reachable_chat_ok w Hr) as (Hrole & _ & _).
  pose proof Hrole as Hget. unfold dict_has in Hget.
  destruct (dict_get ROLE_PROMPTS (current_role (chat w))) as [p|] eqn:E;
    [clear Hget | discriminate Hget].
  split; [apply dict_has_keys, Hrole|].
  split; [exists p; unfold lookup_key; rewrite E; reflexivity|].
  split.
  - unfold show_current_role. rewrite bind_eq. cbn [self].
    rewrite bind_eq. cbn [print_str print emit]. rewrite bind_eq.
    unfold lookup_key. cbn [chat with_trace]. rewrite E. reflexivity.
  - intros history e. unfold request_for. rewrite E.
    destruct (messages_of history); [intros [= ->]; reflexivity | discriminate].
Qed.

Lemma current_role_registered_witness :
  reachable (snd (run_call (SetRole "teacher") (example_world [] no_service)))
  /\ current_role
       (chat (snd (run_call (SetRole "teacher") (example_world [] no_service))))
     ∈ dict_keys ROLE_PROMPTS.
Proof.
  assert (H : reachable
                (snd (run_call (SetRole "teacher") (example_world [] no_service)))).
  { apply (reach_call (example_world [] no_service) (SetRole "teacher") (inr tt));
      [apply reach_init; reflexivity | reflexivity]. }
  split; [exact H|].
  exact (proj1 (current_role_registered _ H)).
Defined.

(** ** Saving and loading *)

Lemma save_conversation_eq (f : string) (w : world) :
  save_conversation f w =
  match files w !! f with
  | Some Directory => (inl OSError, w)
  | _ => (inr tt,
          with_files (<[f := File (JSON.dumps (conversation_history (chat w)))]>
                        (files w)) w)
  end.
Proof. reflexivity. Qed.

(** C5. For every history (a Python value: the keys of each dict are
    distinct), once [save_conversation f] has returned normally,
    [load_conversation f] in any session that sees the same files, a fresh
    one in particular, returns normally with the history that was saved:
    the same turns in the same order, their roles, contents and timestamps
    as they were.  The time is not read again. *)
Theorem save_load_roundtrip (f : string) (w w1 w2 : world) :
  pyval_wf (conversation_history (chat w)) = true ->
  save_conversation f w = (inr tt, w1) ->
  files w2 = files w1 ->
  exists w2',
    load_conversation f w2 = (inr tt, w2')
    /\ conversation_history (chat w2') = conversation_history (chat w)
    /\ ticks w2' = ticks w2.
Proof.
  intros Hwf Hsave Hfiles. rewrite save_conversation_eq in Hsave.
  assert (Hw1 : files w1 !! f
                = Some (File (JSON.dumps (conversation_history (chat w))))).
  { destruct (files w !! f) as [[data|]|]; try discriminate Hsave;
      injection Hsave as <-; cbn [files with_files]; apply lookup_insert_eq. }
  rewrite load_conversation_eq, Hfiles, Hw1, (loads_dumps _ Hwf).
  eexists. repeat split.
Qed.

Lemma save_load_roundtrip_witness :
  pyval_wf example_history = true
  /\ exists w2',
      load_conversation "chat_history.json"
        (with_files
           (files (snd (save_conversation "chat_history.json"
                          (with_chat
                             (with_history example_history (BedrockChat_init "default"))
                             (example_world [] no_service)))))
           (example_world [] no_service))
      = (inr tt, w2')
      /\ conversation_history (chat w2') = example_history
      /\ ticks w2' = 0.
Proof.
  split; [reflexivity|].
  apply (save_load_roundtrip "chat_history.json"
           (with_chat (with_history example_history (BedrockChat_init "default"))
              (example_world [] no_service))
           (snd (save_conversation "chat_history.json"
                   (with_chat
                      (with_history example_history (BedrockChat_init "default"))
                      (example_world [] no_service)))));
    reflexivity.
Defined.

(** The histories a session can hold are Python values, so the round trip
    applies to each of them. *)
Lemma save_load_roundtrip_reachable (f : string) (w w1 w2 : world) :
  reachable w ->
  save_conversation f w = (inr tt, w1) ->
  files w2 = files w1 ->
  fst (load_conversation f w2) = inr tt
  /\ conversation_history (chat (snd (load_conversation f w2)))
     = conversation_history (chat w).
Proof.
  intros Hr Hsave Hfiles.
  destruct (reachable_chat_ok w Hr) as (_ & _ & _ & Hwf).
  rewrite save_conversation_eq in Hsave.
  assert (Hw1 : files w1 !! f
                = Some (File (JSON.dumps (conversation_history (chat w))))).
  { destruct (files w !! f) as [[data|]|]; try discriminate Hsave;
      injection Hsave as <-; cbn [files with_files]; apply lookup_insert_eq. }
  rewrite load_conversation_eq, Hfiles, Hw1, (loads_dumps _ Hwf).
  split; reflexivity.
Qed.

(** ** Turns *)

Lemma caught_not_reply e w v w' :
  caught e w = (inr v, w') -> v = PNone.
Proof.
  unfold caught. destruct (is_Exception e); [|discriminate].
  intros [= <- _]. reflexivity.
Qed.

(** A call that returns a reply other than [None] went through every step. *)
Lemma get_response_success u l w v w' :
  conversation_history (chat w) = PList l ->
  get_response u w = (inr v, w') ->
  v <> PNone ->
  exists a b,
    request_for (chat w) (l ++ [turn "user" (PStr u) (clock w (ticks w))]) = inr a
    /\ service w (calls w) a = InvokeReturns b
    /\ reply_of b = inr v
    /\ w' = appended "assistant" v
              (l ++ [turn "user" (PStr u) (clock w (ticks w))])
              (requested a (appended "user" (PStr u) l w)).
Proof.
  intros Hl E Hv. rewrite (get_response_eq u l w Hl) in E. cbv zeta in E.
  destruct (request_for _ _) as [e|a] eqn:Ea;
    [exfalso; exact (Hv (caught_not_reply _ _ _ _ E))|].
  destruct (service w (calls w) a) as [e|b] eqn:Eb;
    [exfalso; exact (Hv (caught_not_reply _ _ _ _ E))|].
  destruct (reply_of b) as [e|v0] eqn:Ev;
    [exfalso; exact (Hv (caught_not_reply _ _ _ _ E))|].
  injection E as -> <-. exists a, b. repeat split; assumption.
Qed.

Lemma dialogue_length clock t exchanges :
  length (dialogue clock t exchanges) = 2 * length exchanges.
Proof.
  revert t. induction exchanges as [|[u r] rest IH]; intros t; [reflexivity|].
  cbn [dialogue length]. rewrite IH. lia.
Qed.

Lemma dialogue_roles clock t exchanges :
  map role_of (dialogue clock t exchanges)
  = flat_map (fun _ => [Some (PStr "user"); Some (PStr "assistant")]) exchanges.
Proof.
  revert t. induction exchanges as [|[u r] rest IH]; intros t; [reflexivity|].
  cbn [dialogue map flat_map app]. rewrite IH. reflexivity.
Qed.

Lemma dialogue_contents clock t exchanges :
  map content_of (dialogue clock t exchanges)
  = flat_map (fun ur => [Some (PStr (fst ur)); Some (snd ur)]) exchanges.
Proof.
  revert t. induction exchanges as [|[u r] rest IH]; intros t; [reflexivity|].
  cbn [dialogue map flat_map app]. rewrite IH. reflexivity.
Qed.

(** The history grows by one exchange at each successful call. *)
Lemma send_turns_history inputs :
  forall w replies w' l,
    conversation_history (chat w) = PList l ->
    send_turns inputs w = (inr replies, w') ->
    Forall (fun r => r <> PNone) replies ->
    length replies = length inputs
    /\ conversation_history (chat w')
       = PList (l ++ dialogue (clock w) (ticks w) (zip inputs replies))
    /\ clock w' = clock w
    /\ ticks w' = ticks w + 2 * length inputs
    /\ current_role (chat w') = current_role (chat w).
Proof.
  unfold send_turns.
  induction inputs as [|u inputs IH]; intros w replies w' l Hl E Hall.
  - injection E as <- <-. cbn. rewrite app_nil_r. auto.
  - cbn [comprehension] in E. rewrite bind_eq in E.
    destruct (get_response u w) as [[e|v] w1] eqn:E1; [discriminate E|].
    rewrite bind_eq in E.
    destruct (comprehension get_response inputs w1) as [[e|vs] w2] eqn:E2;
      [discriminate E|].
    injection E as <- <-. apply Forall_cons in Hall as [Hv Hvs].
    destruct (get_response_success u l w v w1 Hl E1 Hv) as (a & b & _ & _ & _ & ->).
    pose proof (fun l' H => IH _ vs w2 l' H E2 Hvs) as IH'.
    edestruct IH' as (Hlen & Hh & Hc & Ht & Hr); [reflexivity|]. clear IH IH'.
    cbn [appended requested chat clock ticks with_ticks with_chat with_calls
           with_trace with_history conversation_history current_role] in *.
    repeat split.
    + cbn [length]. rewrite Hlen. reflexivity.
    + rewrite Hh. cbn [zip zip_with dialogue]. repeat rewrite <- app_assoc.
      reflexivity.
    + exact Hc.
    + rewrite Ht. cbn [length]. lia.
    + exact Hr.
Qed.

(** C1. After [N] calls of [get_response] in a row that each returned a
    reply other than [None], starting from the empty history, the history
    holds [2 N] turns: those of the [N] exchanges in order, the user turn
    with the text sent followed by the assistant turn with the reply
    returned, so that the roles alternate user, assistant, user, ... *)
Theorem send_turns_alternate (inputs : list string) (replies : list pyval)
    (w w' : world) :
  conversation_history (chat w) = PList [] ->
  send_turns inputs w = (inr replies, w') ->
  Forall (fun r => r <> PNone) replies ->
  exists h,
    conversation_history (chat w') = PList h
    /\ length h = 2 * length inputs
    /\ h = dialogue (clock w) (ticks w) (zip inputs replies)
    /\ map role_of h
       = flat_map (fun _ => [Some (PStr "user"); Some (PStr "assistant")]) inputs
    /\ map content_of h
       = flat_map (fun ur => [Some (PStr (fst ur)); Some (snd ur)])
           (zip inputs replies).
Proof.
  intros Hl E Hall.
  destruct (send_turns_history inputs w replies w' [] Hl E Hall)
    as (Hlen & Hh & _).
  exists (dialogue (clock w) (ticks w) (zip inputs replies)).
  assert (Hz : length (zip inputs replies) = length inputs)
    by (rewrite length_zip; lia).
  split; [exact Hh|]. split; [rewrite dialogue_length, Hz; reflexivity|].
  split; [reflexivity|]. split; [|apply dialogue_contents].
  rewrite dialogue_roles. clear - Hlen. revert replies Hlen.
  induction inputs as [|u inputs IH]; intros [|r replies] Hlen;
    try discriminate Hlen; [reflexivity|].
  cbn [zip zip_with flat_map app]. rewrite (IH replies); [reflexivity|].
  injection Hlen as ->. reflexivity.
Qed.

Lemma send_turns_alternate_witness :
  send_turns ["Hello"; "Merci"] (example_world [] bonjour_service)
  = (inr [PStr "Bonjour"; PStr "Bonjour"],
     snd (send_turns ["Hello"; "Merci"] (example_world [] bonjour_service)))
  /\ exists h,
      conversation_history
        (chat (snd (send_turns ["Hello"; "Merci"] (example_world [] bonjour_service))))
      = PList h
      /\ length h = 4.
Proof.
  assert (E : send_turns ["Hello"; "Merci"] (example_world [] bonjour_service)
              = (inr [PStr "Bonjour"; PStr "Bonjour"],
                 snd (send_turns ["Hello"; "Merci"]
                        (example_world [] bonjour_service))))
    by (vm_compute; reflexivity).
  split; [exact E|].
  destruct (send_turns_alternate ["Hello"; "Merci"] [PStr "Bonjour"; PStr "Bonjour"]
              (example_world [] bonjour_service) _ eq_refl E)
    as (h & Hh & Hlen & _).
  - repeat constructor; discriminate.
  - exists h. split; [exact Hh | exact Hlen].
Defined.

Lemma caught_Exception e w :
  is_Exception e = true ->
  caught e w = (inr PNone, with_trace (trace w ++ [PrintExc "錯誤: " e]) w).
Proof. intros H. unfold caught. rewrite H. reflexivity. Qed.

Lemma getitem_str_Exception v k e :
  getitem_str v k = inl e -> is_Exception e = true.
Proof.
  destruct v; cbn; try (intros [= <-]; reflexivity).
  destruct (dict_get d k); [discriminate | intros [= <-]; reflexivity].
Qed.

Lemma getitem_0_Exception v e : getitem_0 v = inl e -> is_Exception e = true.
Proof.
  destruct v as [| | |s|[|x l]|d]; cbn; try (intros [= <-]; reflexivity);
    try discriminate.
  destruct s; [intros [= <-]; reflexivity | discriminate].
Qed.

Lemma message_of_Exception msg e : message_of msg = inl e -> is_Exception e = true.
Proof.
  unfold message_of.
  destruct (getitem_str msg "role") eqn:E1;
    [intros [= <-]; exact (getitem_str_Exception _ _ _ E1)|].
  destruct (getitem_str msg "content") eqn:E2;
    [intros [= <-]; exact (getitem_str_Exception _ _ _ E2) | discriminate].
Qed.

Lemma messages_of_Exception l e : messages_of l = inl e -> is_Exception e = true.
Proof.
  induction l as [|msg l IH]; cbn [messages_of]; [discriminate|].
  destruct (message_of msg) eqn:E1;
    [intros [= <-]; exact (message_of_Exception _ _ E1)|].
  destruct (messages_of l); [intros [= <-]; apply IH; reflexivity | discriminate].
Qed.

Lemma request_for_Exception c h e :
  request_for c h = inl e -> is_Exception e = true.
Proof.
  unfold request_for.
  destruct (messages_of h) eqn:E1;
    [intros [= <-]; exact (messages_of_Exception _ _ E1)|].
  destruct (dict_get ROLE_PROMPTS (current_role c));
    [discriminate | intros [= <-]; reflexivity].
Qed.

Lemma reply_of_Exception b e : reply_of b = inl e -> is_Exception e = true.
Proof.
  unfold reply_of.
  destruct (JSON.loads b) as [rb|]; [|intros [= <-]; reflexivity].
  destruct (getitem_str rb "content") as [|content] eqn:E1;
    [intros [= <-]; exact (getitem_str_Exception _ _ _ E1)|].
  destruct (getitem_0 content) as [|block] eqn:E2;
    [intros [= <-]; exact (getitem_0_Exception _ _ E2)|].
  apply getitem_str_Exception.
Qed.

(** A call whose completion fails keeps the user turn and returns [None]. *)
Lemma get_response_failure u l w :
  conversation_history (chat w) = PList l ->
  (forall a,
     request_for (chat w) (l ++ [turn "user" (PStr u) (clock w (ticks w))]) = inr a ->
     completion_failed (service w (calls w) a) = true) ->
  exists w',
    get_response u w = (inr PNone, w')
    /\ conversation_history (chat w')
       = PList (l ++ [turn "user" (PStr u) (clock w (ticks w))])
    /\ ticks w' = S (ticks w).
Proof.
  intros Hl Hfail. rewrite (get_response_eq u l w Hl). cbv zeta.
  destruct (request_for _ _) as [e|a] eqn:Ea.
  - rewrite caught_Exception by exact (request_for_Exception _ _ _ Ea).
    eexists. repeat split.
  - specialize (Hfail a eq_refl). unfold completion_failed in Hfail.
    destruct (service w (calls w) a) as [e|b].
    + rewrite caught_Exception by exact Hfail. eexists. repeat split.
    + destruct (reply_of b) as [e|v] eqn:Eb; [|discriminate Hfail].
      rewrite caught_Exception by exact (reply_of_Exception _ _ Eb).
      eexists. repeat split.
Qed.

(** C2. After [k - 1] calls that each returned a reply, starting from the
    empty history, a [k]-th call whose inference fails (the client raises
    an exception, the body does not decode, or it has no
    [content[0].text]) returns [None]; the history is the one before the
    call followed by the new user turn and nothing else, so its length is
    [2 (k - 1) + 1], and the time is read once only. *)
Theorem get_response_failed_turn (inputs : list string) (replies : list pyval)
    (u : string) (w w1 : world) :
  conversation_history (chat w) = PList [] ->
  send_turns inputs w = (inr replies, w1) ->
  Forall (fun r => r <> PNone) replies ->
  (forall l a,
     conversation_history (chat w1) = PList l ->
     request_for (chat w1) (l ++ [turn "user" (PStr u) (clock w1 (ticks w1))])
     = inr a ->
     completion_failed (service w1 (calls w1) a) = true) ->
  exists w2 h,
    get_response u w1 = (inr PNone, w2)
    /\ conversation_history (chat w1) = PList h
    /\ conversation_history (chat w2)
       = PList (h ++ [turn "user" (PStr u) (clock w1 (ticks w1))])
    /\ length (h ++ [turn "user" (PStr u) (clock w1 (ticks w1))])
       = 2 * (S (length inputs) - 1) + 1
    /\ ticks w2 = S (ticks w1).
Proof.
  intros Hl E Hall Hfail.
  destruct (send_turns_history inputs w replies w1 [] Hl E Hall)
    as (Hlen & Hh & _).
  cbn [app] in Hh.
  destruct (get_response_failure u _ w1 Hh (fun a => Hfail _ a Hh))
    as (w2 & E2 & Hh2 & Ht).
  eexists w2, _. repeat split; try eassumption.
  rewrite length_app, dialogue_length, length_zip, Hlen. cbn [length]. lia.
Qed.

Lemma get_response_failed_turn_witness :
  exists w2 h,
    get_response "X" (snd (send_turns ["Hello"] (example_world [] flaky_service)))
    = (inr PNone, w2)
    /\ conversation_history
         (chat (snd (send_turns ["Hello"] (example_world [] flaky_service))))
       = PList h
    /\ conversation_history (chat w2)
       = PList (h ++ [turn "user" (PStr "X") (example_clock 2)])
    /\ length (h ++ [turn "user" (PStr "X") (example_clock 2)]) = 3
    /\ ticks w2 = 3.
Proof.
  apply (get_response_failed_turn ["Hello"] [PStr "Bonjour"] "X"
           (example_world [] flaky_service)
           (snd (send_turns ["Hello"] (example_world [] flaky_service)))).
  - reflexivity.
  - vm_compute. reflexivity.
  - repeat constructor. discriminate.
  - intros l a _ _. reflexivity.
Defined.

(** ** The request *)

Lemma get_response_not_list u w :
  (forall l, conversation_history (chat w) <> PList l) ->
  get_response u w = caught AttributeError w.
Proof.
  intros H. unfold get_response, try_except. rewrite bind_eq.
  rewrite (add_to_history_not_list _ _ _ H). reflexivity.
Qed.

Lemma messages_of_stripped l ms :
  messages_of l = inr ms -> Forall2 stripped l ms.
Proof.
  revert ms. induction l as [|msg l IH]; intros ms; cbn [messages_of].
  - intros [= <-]. constructor.
  - destruct (message_of msg) as [|m] eqn:Em; [discriminate|].
    destruct (messages_of l) as [|ms']; [discriminate|].
    intros [= <-]. constructor; [|apply IH; reflexivity].
    unfold message_of, getitem_str in Em.
    destruct msg as [| | | | |d]; try discriminate Em.
    destruct (dict_get d "role") as [r|] eqn:Er; [|discriminate Em].
    destruct (dict_get d "content") as [c|] eqn:Ec; [|discriminate Em].
    injection Em as <-. exists r, c. repeat split; assumption.
Qed.

Lemma caught_trace e w r w' :
  caught e w = (r, w') ->
  trace w' = trace w \/ trace w' = trace w ++ [PrintExc "錯誤: " e].
Proof.
  unfold caught. destruct (is_Exception e); intros [= _ <-]; [right | left];
    reflexivity.
Qed.

Lemma reply_of_text b v :
  reply_of b = inr v ->
  exists response_body content block,
    JSON.loads b = Some response_body
    /\ getitem_str response_body "content" = inr content
    /\ getitem_0 content = inr block
    /\ getitem_str block "text" = inr v.
Proof.
  unfold reply_of.
  destruct (JSON.loads b) as [rb|]; [|discriminate].
  destruct (getitem_str rb "content") as [|content] eqn:E1; [discriminate|].
  destruct (getitem_0 content) as [|block] eqn:E2; [discriminate|].
  intros E3. exists rb, content, block. repeat split; assumption.
Qed.

(** C6. Whenever [get_response user_input] sends a request, in a world a
    session can reach, the history is a list and the request is this one:
    the fixed model identifier; the version tag [bedrock-2023-05-31]; one
    message per turn of the history (the new user turn included), in order,
    each made of the role and the content of its turn and nothing else;
    [max_tokens] 4096, [temperature] 0.7, [top_p] 0.9, [top_k] 250; the
    prompt of the current role as [system].  It is the only request of the
    call.  When the call returns a reply, that reply is
    [content[0].text] of the decoded response body. *)
Theorem get_response_request (u : string) (w w' : world) (r : exn + pyval)
    (evs : list event) (a : invoke_args) :
  reachable w ->
  get_response u w = (r, w') ->
  trace w' = trace w ++ evs ->
  In (InvokeModel a) evs ->
  exists l prompt ms,
    conversation_history (chat w) = PList l
    /\ dict_get ROLE_PROMPTS (current_role (chat w)) = Some prompt
    /\ Forall2 stripped (l ++ [turn "user" (PStr u) (clock w (ticks w))]) ms
    /\ a = {| modelId := "anthropic.claude-3-sonnet-20240229-v1:0";
              body := {| anthropic_version := "bedrock-2023-05-31";
                         messages := ms;
                         max_tokens := 4096;
                         temperature := 7 # 10;
                         top_p := 9 # 10;
                         top_k := 250;
                         system := prompt |};
              contentType := "application/json";
              accept := "application/json" |}
    /\ (forall a', In (InvokeModel a') evs -> a' = a)
    /\ (forall v, r = inr v -> v <> PNone ->
        exists b response_body content block,
          service w (calls w) a = InvokeReturns b
          /\ JSON.loads b = Some response_body
          /\ getitem_str response_body "content" = inr content
          /\ getitem_0 content = inr block
          /\ getitem_str block "text" = inr v).
Proof.
  intros Hreach E Htrace Hin.
  destruct (reachable_chat_ok w Hreach) as (_ & Hmodel & _).
  destruct (conversation_history (chat w)) as [| | | |l|] eqn:Hl;
    try (exfalso; rewrite get_response_not_list in E by (rewrite Hl; discriminate);
         apply caught_trace in E; rewrite Htrace in E;
         destruct E as [E|E];
         [ rewrite <- (app_nil_r (trace w)) in E at 2
         | ]; apply app_inv_head in E; subst evs;
         [ destruct Hin | destruct Hin as [Hin|[]]; discriminate Hin ]).
  rewrite (get_response_eq u l w Hl) in E. cbv zeta in E.
  destruct (request_for _ _) as [e|a0] eqn:Ea.
  { exfalso. apply caught_trace in E. rewrite Htrace in E.
    cbn [trace appended with_ticks with_chat] in E. destruct E as [E|E];
      [rewrite <- (app_nil_r (trace w)) in E at 2|];
      apply app_inv_head in E; subst evs;
      [ destruct Hin | destruct Hin as [Hin|[]]; discriminate Hin ]. }
  assert (Hevs : evs = [InvokeModel a0]
                 \/ exists e, evs = [InvokeModel a0; PrintExc "錯誤: " e]).
  { destruct (service w (calls w) a0) as [e|b].
    - apply caught_trace in E. rewrite Htrace in E.
      cbn [trace requested appended with_ticks with_chat with_calls with_trace] in E.
      destruct E as [E|E]; [left | right; exists e];
        rewrite <- ?app_assoc in E; apply app_inv_head in E; exact E.
    - destruct (reply_of b) as [e|v].
      + apply caught_trace in E. rewrite Htrace in E.
        cbn [trace requested appended with_ticks with_chat with_calls with_trace] in E.
        destruct E as [E|E]; [left | right; exists e];
          rewrite <- ?app_assoc in E; apply app_inv_head in E; exact E.
      + injection E as _ <-. left.
        cbn [trace requested appended with_ticks with_chat with_calls with_trace]
          in Htrace.
        apply app_inv_head in Htrace. symmetry. exact Htrace. }
  assert (Hone : forall a', In (InvokeModel a') evs -> a' = a0).
  { intros a' Ha'. destruct Hevs as [->|(e & ->)].
    - destruct Ha' as [[= <-]|[]]. reflexivity.
    - destruct Ha' as [[= <-]|[Ha'|[]]]; [reflexivity | discriminate Ha']. }
  pose proof (Hone a Hin) as ->. clear Hin.
  unfold request_for in Ea.
  destruct (messages_of _) as [|ms] eqn:Ems; [discriminate Ea|].
  destruct (dict_get ROLE_PROMPTS (current_role (chat w))) as [prompt|] eqn:Ep;
    [|discriminate Ea].
  injection Ea as <-. rewrite Hmodel in *.
  exists l, prompt, ms. split; [reflexivity|]. split; [reflexivity|].
  split; [exact (messages_of_stripped _ _ Ems)|]. split; [reflexivity|].
  split; [exact Hone|].
  intros v -> Hv.
  match type of E with
  | match service w (calls w) ?a with _ => _ end = _ =>
      destruct (service w (calls w) a) as [e|b] eqn:Es
  end; [exfalso; exact (Hv (caught_not_reply _ _ _ _ E))|].
  destruct (reply_of b) as [e|v0] eqn:Eb;
    [exfalso; exact (Hv (caught_not_reply _ _ _ _ E))|].
  injection E as -> _.
  destruct (reply_of_text b v Eb) as (rb & content & block & H1 & H2 & H3 & H4).
  exists b, rb, content, block. repeat split; assumption.
Qed.

Lemma get_response_request_witness :
  reachable (example_world [] bonjour_service)
  /\ In (InvokeModel example_request)
        (trace (snd (get_response "Hello" (example_world [] bonjour_service))))
  /\ exists l prompt ms,
      conversation_history (chat (example_world [] bonjour_service)) = PList l
      /\ dict_get ROLE_PROMPTS "default" = Some prompt
      /\ Forall2 stripped (l ++ [turn "user" (PStr "Hello") (example_clock 0)]) ms
      /\ messages (body example_request) = ms
      /\ system (body example_request) = prompt.
Proof.
  assert (Hr : reachable (example_world [] bonjour_service))
    by (apply reach_init; reflexivity).
  assert (Hin : In (InvokeModel example_request)
                   (trace (snd (get_response "Hello"
                                  (example_world [] bonjour_service)))))
    by (left; reflexivity).
  split; [exact Hr|]. split; [exact Hin|].
  destruct (get_response_request "Hello" (example_world [] bonjour_service)
              (snd (get_response "Hello" (example_world [] bonjour_service)))
              (fst (get_response "Hello" (example_world [] bonjour_service)))
              (trace (snd (get_response "Hello" (example_world [] bonjour_service))))
              example_request Hr)
    as (l & prompt & ms & Hl & Hp & Hms & Ha & _); [reflexivity | reflexivity | exact Hin |].
  exists l, prompt, ms. rewrite Ha. repeat split; assumption.
Defined.

(** ** The scenarios of the specification *)

(** An empty history, the role switched to [translator], one turn [Hello]
    answered [Bonjour]: the reply is returned and the history holds the
    two turns. *)
Example scenario_translator :
  fst (set_role "translator" (example_world [] bonjour_service)) = inr true
  /\ fst (get_response "Hello"
            (snd (set_role "translator" (example_world [] bonjour_service))))
     = inr (PStr "Bonjour")
  /\ conversation_history
       (chat (snd (get_response "Hello"
                     (snd (set_role "translator"
                             (example_world [] bonjour_service))))))
     = PList [turn "user" (PStr "Hello") (example_clock 0);
              turn "assistant" (PStr "Bonjour") (example_clock 1)].
Proof. repeat split; vm_compute; reflexivity. Qed.

(** One turn [X] while the client raises: nothing is returned and the
    history holds the user turn alone. *)
Example scenario_transport_failure :
  fst (get_response "X" (example_world [] no_service)) = inr PNone
  /\ conversation_history (chat (snd (get_response "X" (example_world [] no_service))))
     = PList [turn "user" (PStr "X") (example_clock 0)].
Proof. split; vm_compute; reflexivity. Qed.

(** A body whose [text] is [null] is not a failure for the code: the
    assistant turn is stored with [None] as content, and [None] is what the
    call returns. *)
Example null_text_reply :
  fst (get_response "X" (example_world [] null_service)) = inr PNone
  /\ conversation_history
       (chat (snd (get_response "X" (example_world [] null_service))))
     = PList [turn "user" (PStr "X") (example_clock 0);
              turn "assistant" PNone (example_clock 1)].
Proof. split; vm_compute; reflexivity. Qed.

(** A whole session at the terminal, from [main]: a role switch, a turn, a
    save and [quit]. *)
Example session_at_the_terminal :
  fst (main 10 (example_world
                  [Line "role"; Line " translator "; Line "Hello"; Line "save";
                   Line "quit"] bonjour_service))
  = inr (Some tt)
  /\ files (snd (main 10 (example_world
                            [Line "role"; Line " translator "; Line "Hello";
                             Line "save"; Line "quit"] bonjour_service)))
     !! "chat_history.json"
     = Some (File (JSON.dumps
                     (PList [turn "user" (PStr "Hello") (example_clock 0);
                             turn "assistant" (PStr "Bonjour") (example_clock 1)]))).
Proof. split; vm_compute; reflexivity. Qed.

(** * Further properties of the class and of the command loop *)

(** ** get_response: what it raises, what it leaves alone *)

Lemma caught_inl e w e' w' :
  caught e w = (inl e', w') -> e = KeyboardInterrupt /\ e' = e /\ w' = w.
Proof.
  unfold caught. destruct e; cbn; try discriminate.
  intros [= <- <-]. repeat split.
Qed.

Lemma caught_frame e w r w' :
  caught e w = (r, w') ->
  chat w' = chat w /\ files w' = files w /\ stdin w' = stdin w
  /\ clock w' = clock w /\ service w' = service w
  /\ calls w' = calls w /\ ticks w' = ticks w.
Proof.
  unfold caught. destruct (is_Exception e); intros [= _ <-]; repeat split.
Qed.

(** X1. [get_response] never raises an exception that [except Exception]
    catches: if it does not return, it was interrupted, and the interrupt
    came from the service call, after the user turn was stored. *)
Theorem get_response_raises_only_interrupt (u : string) (w w' : world) (e : exn) :
  get_response u w = (inl e, w') ->
  e = KeyboardInterrupt
  /\ exists l a,
      conversation_history (chat w) = PList l
      /\ service w (calls w) a = InvokeRaises KeyboardInterrupt
      /\ conversation_history (chat w')
         = PList (l ++ [turn "user" (PStr u) (clock w (ticks w))]).
Proof.
  intros E.
  destruct (conversation_history (chat w)) as [| | | |l|] eqn:Hl;
    try (rewrite get_response_not_list in E by (rewrite Hl; discriminate);
         apply caught_inl in E as [E _]; discriminate E).
  rewrite (get_response_eq u l w Hl) in E. cbv zeta in E.
  destruct (request_for _ _) as [e0|a] eqn:Ea.
  { apply caught_inl in E as [-> _].
    apply request_for_Exception in Ea. discriminate Ea. }
  destruct (service w (calls w) a) as [e0|b] eqn:Es.
  - apply caught_inl in E as (-> & -> & ->). split; [reflexivity|].
    exists l, a. repeat split. exact Es.
  - destruct (reply_of b) as [e0|v] eqn:Eb; [|discriminate E].
    apply caught_inl in E as [-> _].
    apply reply_of_Exception in Eb. discriminate Eb.
Qed.

Lemma get_response_raises_only_interrupt_witness :
  get_response "X" (example_world [] interrupted_service)
  = (inl KeyboardInterrupt,
     snd (get_response "X" (example_world [] interrupted_service)))
  /\ exists l a,
      conversation_history (chat (example_world [] interrupted_service)) = PList l
      /\ interrupted_service 0 a = InvokeRaises KeyboardInterrupt
      /\ conversation_history
           (chat (snd (get_response "X" (example_world [] interrupted_service))))
         = PList (l ++ [turn "user" (PStr "X") (example_clock 0)]).
Proof.
  assert (E : get_response "X" (example_world [] interrupted_service)
              = (inl KeyboardInterrupt,
                 snd (get_response "X" (example_world [] interrupted_service))))
    by reflexivity.
  split; [exact E|].
  exact (proj2 (get_response_raises_only_interrupt _ _ _ _ E)).
Defined.

Lemma get_response_frame_parts (u : string) (w w' : world) (r : exn + pyval) :
  get_response u w = (r, w') ->
  current_role (chat w') = current_role (chat w)
  /\ model_id (chat w') = model_id (chat w).
Proof.
  intros E.
  destruct (conversation_history (chat w)) as [| | | |l|] eqn:Hl;
    try (rewrite get_response_not_list in E by (rewrite Hl; discriminate);
         apply caught_frame in E as (Hc & _); rewrite Hc; split; reflexivity).
  rewrite (get_response_eq u l w Hl) in E. cbv zeta in E.
  destruct (request_for _ _) as [e0|a];
    [apply caught_frame in E as (Hc & _); rewrite Hc; split; reflexivity|].
  destruct (service w (calls w) a) as [e0|b];
    [apply caught_frame in E as (Hc & _); rewrite Hc; split; reflexivity|].
  destruct (reply_of b) as [e0|v];
    [apply caught_frame in E as (Hc & _); rewrite Hc; split; reflexivity|].
  injection E as _ <-. split; reflexivity.
Qed.

(** X2. Whatever happens in it, a call of [get_response] leaves the files,
    the pending input, the current role, the model identifier and the
    command table as they were; it sends at most one request and reads the
    time at most twice; and it only appends to the history: one turn (the
    user's) or two, after the turns that were there.  A history that is
    not a list is left as it is. *)
Theorem get_response_frame (u : string) (w w' : world) (r : exn + pyval) :
  get_response u w = (r, w') ->
  files w' = files w
  /\ stdin w' = stdin w
  /\ current_role (chat w') = current_role (chat w)
  /\ model_id (chat w') = model_id (chat w)
  /\ available_commands (chat w') = available_commands (chat w)
  /\ (calls w <= calls w' <= S (calls w))%nat
  /\ (ticks w <= ticks w' <= S (S (ticks w)))%nat
  /\ (forall l, conversation_history (chat w) = PList l ->
        exists l', conversation_history (chat w') = PList (l ++ l')
                   /\ (1 <= length l' <= 2)%nat)
  /\ ((forall l, conversation_history (chat w) <> PList l) ->
      conversation_history (chat w') = conversation_history (chat w)).
Proof.
  intros E.
  destruct (conversation_history (chat w)) as [| | | |l|] eqn:Hl;
    try (rewrite get_response_not_list in E by (rewrite Hl; discriminate);
         apply caught_frame in E as (Hc & Hf & Hi & _ & _ & Hn & Ht);
         rewrite Hc, Hf, Hi, Hn, Ht, Hl;
         repeat split; try lia; try discriminate; intros; reflexivity).
  rewrite (get_response_eq u l w Hl) in E. cbv zeta in E.
  assert (Huser : forall w1 r1,
             caught r1 (appended "user" (PStr u) l w) = (r, w1)
             \/ (exists a, caught r1 (requested a (appended "user" (PStr u) l w))
                           = (r, w1)) ->
             files w1 = files w /\ stdin w1 = stdin w
             /\ current_role (chat w1) = current_role (chat w)
             /\ model_id (chat w1) = model_id (chat w)
             /\ available_commands (chat w1) = available_commands (chat w)
             /\ (calls w <= calls w1 <= S (calls w))%nat
             /\ (ticks w <= ticks w1 <= S (S (ticks w)))%nat
             /\ conversation_history (chat w1)
                = PList (l ++ [turn "user" (PStr u) (clock w (ticks w))])).
  { intros w1 r1 [H|[a H]];
      apply caught_frame in H as (Hc & Hf & Hi & _ & _ & Hn & Ht);
      rewrite Hc, Hf, Hi, Hn, Ht; cbn; repeat split; lia. }
  assert (Hdone : (exists w1 r1,
                      (caught r1 (appended "user" (PStr u) l w) = (r, w1)
                       \/ (exists a,
                              caught r1 (requested a (appended "user" (PStr u) l w))
                              = (r, w1)))
                      /\ w' = w1)
                  \/ exists a v,
                      w' = appended "assistant" v
                             (l ++ [turn "user" (PStr u) (clock w (ticks w))])
                             (requested a (appended "user" (PStr u) l w))).
  { destruct (request_for _ _) as [e0|a]; [left; eauto 6|].
    destruct (service w (calls w) a) as [e0|b]; [left; eauto 7|].
    destruct (reply_of b) as [e0|v]; [left; eauto 7|].
    injection E as _ <-. right. eauto. }
  destruct Hdone as [(w1 & r1 & H & ->)|(a & v & ->)].
  - destruct (Huser w1 r1 H) as (Hf & Hi & Hr & Hm & Ha & Hn & Ht & Hh).
    repeat split; try assumption; try lia.
    + intros l0 [= <-]. eexists. split; [exact Hh | cbn; lia].
    + intros Hno. exfalso. exact (Hno l eq_refl).
  - cbn. repeat split; try lia.
    + intros l0 [= <-]. eexists. rewrite <- app_assoc. split; [reflexivity|].
      cbn. lia.
    + intros Hno. exfalso. exact (Hno l eq_refl).
Qed.

Lemma get_response_frame_witness :
  get_response "Hello" (example_world [] bonjour_service)
  = (inr (PStr "Bonjour"),
     snd (get_response "Hello" (example_world [] bonjour_service)))
  /\ files (snd (get_response "Hello" (example_world [] bonjour_service))) = ∅.
Proof.
  assert (E : get_response "Hello" (example_world [] bonjour_service)
              = (inr (PStr "Bonjour"),
                 snd (get_response "Hello" (example_world [] bonjour_service))))
    by (vm_compute; reflexivity).
  split; [exact E|].
  exact (proj1 (get_response_frame _ _ _ _ E)).
Defined.

(** ** Histories and roles the methods do not expect *)

Lemma messages_of_app l1 l2 :
  messages_of (l1 ++ l2)
  = match messages_of l1 with
    | inl e => inl e
    | inr ms1 =>
        match messages_of l2 with
        | inl e => inl e
        | inr ms2 => inr (ms1 ++ ms2)
        end
    end.
Proof.
  induction l1 as [|msg l1 IH]; cbn [app messages_of].
  - destruct (messages_of l2); reflexivity.
  - destruct (message_of msg); [reflexivity|]. rewrite IH.
    destruct (messages_of l1); [reflexivity|].
    destruct (messages_of l2); reflexivity.
Qed.

Lemma messages_of_bad_entry l msg e :
  In msg l -> message_of msg = inl e -> exists e', messages_of l = inl e'.
Proof.
  induction l as [|x l IH]; [intros []|]. intros [->|Hin] Hm; cbn [messages_of].
  - rewrite Hm. eauto.
  - destruct (message_of x); [eauto|].
    destruct (IH Hin Hm) as [e' ->]. eauto.
Qed.

(** X3. [load_conversation] takes whatever the file decodes to.  When that
    is not a list (a JSON object, a string, a number), the load succeeds
    and from then on every [get_response] returns [None] without storing
    the user turn, without reading the time and without sending a request:
    the history stays the loaded value. *)
Theorem load_not_a_list (f : string) (data : text) (v : pyval) (w : world) :
  files w !! f = Some (File data) ->
  JSON.loads data = Some v ->
  (forall l, v <> PList l) ->
  fst (load_conversation f w) = inr tt
  /\ conversation_history (chat (snd (load_conversation f w))) = v
  /\ forall u w1,
       conversation_history (chat w1) = v ->
       get_response u w1
       = (inr PNone, traced [PrintExc "錯誤: " AttributeError] w1).
Proof.
  intros Hf Hl Hv. rewrite load_conversation_eq, Hf, Hl.
  split; [reflexivity|]. split; [reflexivity|].
  intros u w1 H1. rewrite get_response_not_list; [reflexivity|].
  intros l. rewrite H1. apply Hv.
Qed.

Lemma load_not_a_list_witness :
  files object_file_world !! "chat_history.json" = Some (File (text_of "{}"))
  /\ JSON.loads (text_of "{}") = Some (PDict [])
  /\ conversation_history
       (chat (snd (load_conversation "chat_history.json" object_file_world)))
     = PDict [].
Proof.
  split; [reflexivity|]. split; [reflexivity|].
  apply (load_not_a_list "chat_history.json" (text_of "{}") (PDict [])
           object_file_world); [reflexivity | reflexivity | discriminate].
Defined.

(** X4. When an entry of the history has no [role] or no [content] (a
    loaded file can hold one), [get_response] stores the user turn, fails
    while building the messages, sends no request and returns [None]. *)
Theorem get_response_bad_entry (u : string) (l : list pyval) (msg : pyval)
    (e : exn) (w : world) :
  conversation_history (chat w) = PList l ->
  In msg l ->
  message_of msg = inl e ->
  exists e',
    get_response u w
    = (inr PNone,
       traced [PrintExc "錯誤: " e'] (appended "user" (PStr u) l w))
    /\ is_Exception e' = true.
Proof.
  intros Hl Hin Hm.
  destruct (messages_of_bad_entry l msg e Hin Hm) as [e' He'].
  rewrite (get_response_eq u l w Hl). cbv zeta. unfold request_for.
  rewrite messages_of_app, He'.
  pose proof (messages_of_Exception _ _ He') as Hexc.
  exists e'. rewrite (caught_Exception _ _ Hexc). split; [reflexivity | exact Hexc].
Qed.

Lemma get_response_bad_entry_witness :
  In (PDict [("note", PStr "memo")]) [PDict [("note", PStr "memo")]]
  /\ message_of (PDict [("note", PStr "memo")]) = inl KeyError
  /\ exists e',
      get_response "Hello" bad_entry_world
      = (inr PNone,
         traced [PrintExc "錯誤: " e']
           (appended "user" (PStr "Hello") [PDict [("note", PStr "memo")]]
              bad_entry_world))
      /\ is_Exception e' = true.
Proof.
  split; [left; reflexivity|]. split; [reflexivity|].
  apply (get_response_bad_entry "Hello" [PDict [("note", PStr "memo")]]
           (PDict [("note", PStr "memo")]) KeyError bad_entry_world);
    [reflexivity | left; reflexivity | reflexivity].
Defined.

Lemma show_current_role_eq (w : world) :
  show_current_role w =
  match dict_get ROLE_PROMPTS (current_role (chat w)) with
  | Some p =>
      (inr tt,
       traced [Print [PStr (Str.nl +:+ "當前角色：" +:+ current_role (chat w))];
               Print [PStr ("角色設定：" +:+ Str.slice_to 100 p +:+ "...")]] w)
  | None =>
      (inl KeyError,
       traced [Print [PStr (Str.nl +:+ "當前角色：" +:+ current_role (chat w))]] w)
  end.
Proof.
  unfold show_current_role. rewrite bind_eq. cbn [self].
  rewrite bind_eq. cbn [print_str print emit]. rewrite bind_eq.
  unfold lookup_key. cbn [chat with_trace].
  destruct (dict_get ROLE_PROMPTS (current_role (chat w))); [|reflexivity].
  cbn [mret M_ret]. unfold traced, print_str, print, emit, with_trace.
  cbn [trace chat files stdin clock ticks service calls].
  rewrite <- app_assoc. reflexivity.
Qed.

(** X5. [__init__] stores the role it is given without looking it up.  In
    a session whose current role is not a key of [ROLE_PROMPTS],
    [show_current_role] prints the line with the role name and then raises
    [KeyError]; [get_response] stores the user turn, sends no request and
    returns [None]; and [set_role] with a registered name repairs the
    session. *)
Theorem unregistered_role (w : world) :
  dict_has ROLE_PROMPTS (current_role (chat w)) = false ->
  show_current_role w
  = (inl KeyError,
     traced [Print [PStr (Str.nl +:+ "當前角色：" +:+ current_role (chat w))]] w)
  /\ (forall u l ms,
        conversation_history (chat w) = PList l ->
        messages_of (l ++ [turn "user" (PStr u) (clock w (ticks w))]) = inr ms ->
        get_response u w
        = (inr PNone,
           traced [PrintExc "錯誤: " KeyError] (appended "user" (PStr u) l w)))
  /\ (forall x,
        dict_has ROLE_PROMPTS x = true ->
        dict_has ROLE_PROMPTS (current_role (chat (snd (set_role x w)))) = true).
Proof.
  intros H. unfold dict_has in H.
  destruct (dict_get ROLE_PROMPTS (current_role (chat w))) eqn:E; [discriminate H|].
  split; [rewrite show_current_role_eq, E; reflexivity|]. split.
  - intros u l ms Hl Hms. rewrite (get_response_eq u l w Hl). cbv zeta.
    unfold request_for. rewrite Hms, E. reflexivity.
  - intros x Hx. rewrite set_role_eq, Hx. exact Hx.
Qed.

Lemma unregistered_role_witness :
  chat pirate_world = BedrockChat_init "pirate"
  /\ dict_has ROLE_PROMPTS (current_role (chat pirate_world)) = false
  /\ fst (show_current_role pirate_world) = inl KeyError.
Proof.
  split; [reflexivity|]. split; [reflexivity|].
  rewrite (proj1 (unregistered_role pirate_world eq_refl)). reflexivity.
Defined.

(** ** How the methods compose: what the next request holds *)

Lemma messages_of_user_turn l ms u t :
  messages_of l = inr ms ->
  messages_of (l ++ [turn "user" (PStr u) t]) = inr (ms ++ [user_message u]).
Proof. intros H. rewrite messages_of_app, H. reflexivity. Qed.

Lemma request_for_eq c h ms p :
  messages_of h = inr ms ->
  dict_get ROLE_PROMPTS (current_role c) = Some p ->
  request_for c h = inr (make_request (model_id c) ms p).
Proof. intros Hm Hp. unfold request_for. rewrite Hm, Hp. reflexivity. Qed.

(** Once the request is built it goes out, whatever comes back. *)
Lemma get_response_sends u l a w :
  conversation_history (chat w) = PList l ->
  request_for (chat w) (l ++ [turn "user" (PStr u) (clock w (ticks w))]) = inr a ->
  exists evs,
    trace (snd (get_response u w)) = trace w ++ InvokeModel a :: evs
    /\ calls (snd (get_response u w)) = S (calls w).
Proof.
  intros Hl Ha. rewrite (get_response_eq u l w Hl). cbv zeta. rewrite Ha.
  assert (Hc : forall e, exists evs,
             trace (snd (caught e (requested a (appended "user" (PStr u) l w))))
             = trace w ++ InvokeModel a :: evs
             /\ calls (snd (caught e (requested a (appended "user" (PStr u) l w))))
                = S (calls w)).
  { intros e. unfold caught. destruct (is_Exception e); cbn.
    - eexists. rewrite <- app_assoc. split; reflexivity.
    - exists []. split; reflexivity. }
  destruct (service w (calls w) a) as [e|b]; [apply Hc|].
  destruct (reply_of b) as [e|v]; [apply Hc|].
  exists []. split; reflexivity.
Qed.

(** X6. After [clear_history], the next [get_response] sends a request
    whose only message is the new user turn: nothing of the earlier
    conversation reaches the model.  The role and its prompt are kept. *)
Theorem clear_then_turn (u p : string) (w : world) :
  dict_get ROLE_PROMPTS (current_role (chat w)) = Some p ->
  exists evs,
    trace (snd (get_response u (snd (clear_history w))))
    = trace w ++ InvokeModel (make_request (model_id (chat w)) [user_message u] p)
                   :: evs.
Proof.
  intros Hp.
  change (snd (clear_history w)) with (with_chat (with_history (PList []) (chat w)) w).
  destruct (get_response_sends u [] (make_request (model_id (chat w)) [user_message u] p)
              (with_chat (with_history (PList []) (chat w)) w) eq_refl)
    as (evs & Ht & _).
  - exact (request_for_eq (with_history (PList []) (chat w))
             ([] ++ [turn "user" (PStr u) (clock w (ticks w))]) [user_message u] p
             eq_refl Hp).
  - exists evs. exact Ht.
Qed.

Lemma clear_then_turn_witness :
  dict_get ROLE_PROMPTS "default" = Some (system (body example_request))
  /\ exists evs,
      trace (snd (get_response "Hello"
                    (snd (clear_history
                            (with_chat
                               (with_history example_history
                                  (BedrockChat_init "default"))
                               (example_world [] bonjour_service))))))
      = [] ++ InvokeModel example_request :: evs.
Proof.
  split; [reflexivity|].
  apply (clear_then_turn "Hello" (system (body example_request))
           (with_chat (with_history example_history (BedrockChat_init "default"))
              (example_world [] bonjour_service))).
  reflexivity.
Defined.

(** X7. After a successful [set_role x], the next [get_response] sends the
    whole conversation so far followed by the new user turn, with the
    prompt of [x] as system prompt: the switch changes the prompt and
    keeps the history. *)
Theorem set_role_then_turn (x p u : string) (l ms : list pyval) (w : world) :
  dict_get ROLE_PROMPTS x = Some p ->
  conversation_history (chat w) = PList l ->
  messages_of l = inr ms ->
  fst (set_role x w) = inr true
  /\ exists evs,
      trace (snd (get_response u (snd (set_role x w))))
      = trace w ++ InvokeModel
                     (make_request (model_id (chat w)) (ms ++ [user_message u]) p)
                     :: evs.
Proof.
  intros Hp Hl Hms.
  assert (Hx : dict_has ROLE_PROMPTS x = true) by (unfold dict_has; rewrite Hp; reflexivity).
  rewrite set_role_eq, Hx. split; [reflexivity|]. cbn [snd].
  destruct (get_response_sends u l
              (make_request (model_id (chat w)) (ms ++ [user_message u]) p)
              (with_chat (with_role x (chat w)) w) Hl) as (evs & Ht & _).
  - exact (request_for_eq (with_role x (chat w)) _ _ p
             (messages_of_user_turn l ms u _ Hms) Hp).
  - exists evs. exact Ht.
Qed.

Lemma set_role_then_turn_witness :
  dict_get ROLE_PROMPTS "teacher" = Some "You are a patient and knowledgeable teacher.
                 Break down complex concepts into simple terms.
                 Use examples and analogies to explain difficult topics.
                 Please respond in Traditional Chinese."
  /\ fst (set_role "teacher" (example_world [] bonjour_service)) = inr true.
Proof.
  split; [reflexivity|].
  exact (proj1 (set_role_then_turn "teacher" _ "Hello" [] []
                  (example_world [] bonjour_service) eq_refl eq_refl eq_refl)).
Defined.

(** X8. A turn whose completion fails is not rolled back, so it is sent
    again: the request of the next [get_response] ends with two user
    messages in a row, the one of the failed turn and the new one. *)
Theorem failed_turn_sent_again (x y p : string) (l ms : list pyval) (w : world) :
  conversation_history (chat w) = PList l ->
  messages_of l = inr ms ->
  dict_get ROLE_PROMPTS (current_role (chat w)) = Some p ->
  completion_failed
    (service w (calls w)
       (make_request (model_id (chat w)) (ms ++ [user_message x]) p)) = true ->
  fst (get_response x w) = inr PNone
  /\ exists evs,
      trace (snd (get_response y (snd (get_response x w))))
      = trace (snd (get_response x w))
        ++ InvokeModel
             (make_request (model_id (chat w))
                (ms ++ [user_message x; user_message y]) p)
           :: evs.
Proof.
  intros Hl Hms Hp Hfail.
  pose proof (request_for_eq (chat w) _ _ p
                (messages_of_user_turn l ms x (clock w (ticks w)) Hms) Hp) as Ha.
  destruct (get_response_failure x l w Hl) as (w1 & E & Hh & Ht).
  { intros a Ha'. rewrite Ha in Ha'. injection Ha' as <-. exact Hfail. }
  rewrite E. split; [reflexivity|]. cbn [snd].
  destruct (get_response_frame_parts x w _ _ E) as (Hr & Hm).
  destruct (get_response_sends y _
              (make_request (model_id (chat w))
                 (ms ++ [user_message x; user_message y]) p) w1 Hh)
    as (evs & Htr & _).
  - rewrite <- Hm, <- Hr in *.
    apply request_for_eq; [|exact Hp].
    rewrite (messages_of_user_turn _ (ms ++ [user_message x]) y);
      [rewrite <- app_assoc; reflexivity|].
    apply messages_of_user_turn, Hms.
  - exists evs. exact Htr.
Qed.

Lemma failed_turn_sent_again_witness :
  completion_failed
    (no_service 0 (make_request "anthropic.claude-3-sonnet-20240229-v1:0"
                     ([] ++ [user_message "X"]) (system (body example_request))))
  = true
  /\ fst (get_response "X" (example_world [] no_service)) = inr PNone.
Proof.
  split; [reflexivity|].
  exact (proj1 (failed_turn_sent_again "X" "Y" (system (body example_request)) [] []
                  (example_world [] no_service) eq_refl eq_refl eq_refl eq_refl)).
Defined.

(** ** The command loop *)

Lemma traced_traced evs1 evs2 w : traced evs2 (traced evs1 w) = traced (evs1 ++ evs2) w.
Proof. unfold traced, with_trace. cbn. rewrite <- app_assoc. reflexivity. Qed.

Lemma emit_traced ev w : emit ev w = (inr tt, traced [ev] w).
Proof. reflexivity. Qed.

Lemma print_str_traced s w : print_str s w = (inr tt, traced [Print [PStr s]] w).
Proof. reflexivity. Qed.

Lemma loop_body_dispatch :
  loop_body = (line ← input (Str.nl +:+ "你: "); dispatch (Str.strip line)).
Proof. reflexivity. Qed.

Lemma main_iteration_handlers : main_iteration = try_except loop_body loop_handlers.
Proof. reflexivity. Qed.

(** A turn of the loop on a line: the tests run in the world where the
    prompt is written and the line read, under the two handlers. *)
Lemma main_iteration_line (s : string) (rest : list stdin_event) (w : world) :
  stdin w = Line s :: rest ->
  main_iteration w
  = match dispatch (Str.strip s) (prompted rest w) with
    | (inl e, w') => handle loop_handlers e w'
    | r => r
    end.
Proof.
  intros Hin. rewrite main_iteration_handlers, loop_body_dispatch.
  unfold try_except. rewrite bind_eq. unfold input. rewrite bind_eq.
  unfold emit, read_line. cbn [stdin with_trace]. rewrite Hin. reflexivity.
Qed.

(** X9. A turn of the loop never raises: whatever the world, it ends with
    [continue] or with [break]. *)
Theorem main_iteration_never_raises (w : world) :
  exists c w', main_iteration w = (inr c, w').
Proof.
  unfold main_iteration, try_except.
  destruct (loop_body w) as [[e|c] w1]; [|eauto].
  destruct e; cbn; eauto.
Qed.

Lemma main_iteration_eof (w : world) :
  stdin w = [] ->
  main_iteration w
  = (inr Continue,
     traced [Prompt (Str.nl +:+ "你: ");
             PrintExc (Str.nl +:+ "發生錯誤: ") EOFError] w).
Proof.
  intros Hin. rewrite main_iteration_handlers, loop_body_dispatch.
  unfold try_except. rewrite bind_eq. unfold input. rewrite bind_eq.
  unfold emit, read_line. cbn [stdin with_trace]. rewrite Hin.
  change (with_trace (trace w ++ [Prompt (Str.nl +:+ "你: ")]) w)
    with (traced [Prompt (Str.nl +:+ "你: ")] w).
  unfold loop_handlers. cbn [handle is_KeyboardInterrupt is_Exception].
  rewrite bind_eq, emit_traced, traced_traced. reflexivity.
Qed.

(** X10. At the end of the input the loop does not stop: each turn writes
    the prompt, reports the [EOFError] and goes on, so that no number of
    turns ends it; the session is left as it was. *)
Theorem main_loop_end_of_input (n : nat) (w : world) :
  stdin w = [] ->
  exists w',
    main_loop n w = (inr None, w')
    /\ chat w' = chat w
    /\ files w' = files w
    /\ calls w' = calls w
    /\ length (trace w') = (length (trace w) + 2 * n)%nat.
Proof.
  revert w. induction n as [|n IH]; intros w Hin.
  - exists w. cbn. repeat split. lia.
  - cbn [main_loop]. rewrite bind_eq, (main_iteration_eof w Hin).
    destruct (IH (traced [Prompt (Str.nl +:+ "你: ");
                          PrintExc (Str.nl +:+ "發生錯誤: ") EOFError] w) Hin)
      as (w' & E & Hc & Hf & Hn & Ht).
    exists w'. rewrite E. repeat split; try assumption.
    rewrite Ht. unfold traced. cbn [trace with_trace]. rewrite length_app.
    cbn [length]. lia.
Qed.

Lemma main_loop_end_of_input_witness :
  stdin (example_world [] no_service) = []
  /\ exists w',
      main_loop 7 (example_world [] no_service) = (inr None, w')
      /\ chat w' = BedrockChat_init "default"
      /\ files w' = ∅
      /\ calls w' = 0%nat
      /\ length (trace w') = 14%nat.
Proof.
  split; [reflexivity|].
  exact (main_loop_end_of_input 7 (example_world [] no_service) eq_refl).
Defined.

(** X11. A line that reads [quit] once stripped and lowered ends the loop
    at once: the farewell is printed, the rest of the input stays unread,
    and nothing is saved: the files and the session are as they were. *)
Theorem main_loop_quit (n : nat) (s : string) (rest : list stdin_event) (w : world) :
  stdin w = Line s :: rest ->
  Str.lower (Str.strip s) = "quit" ->
  main_loop (S n) w
  = (inr (Some tt), traced [Print [PStr "感謝使用！再見！"]] (prompted rest w)).
Proof.
  intros Hin Hs. cbn [main_loop]. rewrite bind_eq, (main_iteration_line s rest w Hin).
  unfold dispatch. rewrite Hs. reflexivity.
Qed.

Lemma main_loop_quit_witness :
  Str.lower (Str.strip "  QuIt ") = "quit"
  /\ fst (main_loop 1 (example_world [Line "  QuIt "; Line "Hello"] no_service))
     = inr (Some tt)
  /\ stdin (snd (main_loop 1 (example_world [Line "  QuIt "; Line "Hello"] no_service)))
     = [Line "Hello"].
Proof.
  split; [reflexivity|].
  rewrite (main_loop_quit 0 "  QuIt " [Line "Hello"]
             (example_world [Line "  QuIt "; Line "Hello"] no_service) eq_refl eq_refl).
  split; reflexivity.
Defined.

Lemma is_command_false u :
  is_command u = false ->
  String.eqb (Str.lower u) "help" = false
  /\ Str.startswith (Str.lower u) "help " = false
  /\ String.eqb (Str.lower u) "quit" = false
  /\ String.eqb (Str.lower u) "clear" = false
  /\ String.eqb (Str.lower u) "save" = false
  /\ String.eqb (Str.lower u) "load" = false
  /\ String.eqb (Str.lower u) "role" = false.
Proof.
  unfold is_command. intros H.
  repeat (apply orb_false_iff in H as [H ?]). repeat split; assumption.
Qed.

Lemma dispatch_message u :
  is_command u = false -> u <> "" ->
  dispatch u
  = (response ← get_response u;
     (if truthy response
      then print [PStr (Str.nl +:+ "Claude:"); response]
      else print_str (Str.nl +:+ "抱歉，出現錯誤，請重試。"));;
     mret Continue).
Proof.
  intros Hc Hu. apply is_command_false in Hc as (H1 & H2 & H3 & H4 & H5 & H6 & H7).
  unfold dispatch. rewrite H1, H2, H3, H4, H5, H6, H7.
  apply String.eqb_neq in Hu. rewrite Hu. reflexivity.
Qed.

(** X12. Everything that is not a command is a message: when the stripped
    line is not empty and passes none of the command tests, the turn calls
    [get_response] on it, stripped and in its own case, once; if the call
    returns, the loop prints the reply when it is truthy and its apology
    otherwise, also for an empty reply that was stored, and goes on. *)
Theorem main_iteration_message (s : string) (rest : list stdin_event)
    (w w1 : world) (response : pyval) :
  stdin w = Line s :: rest ->
  is_command (Str.strip s) = false ->
  Str.strip s <> "" ->
  get_response (Str.strip s) (prompted rest w) = (inr response, w1) ->
  main_iteration w = (inr Continue, traced [reply_line response] w1).
Proof.
  intros Hin Hc Hu E. rewrite (main_iteration_line s rest w Hin).
  rewrite (dispatch_message _ Hc Hu), bind_eq, E. unfold reply_line.
  destruct (truthy response); reflexivity.
Qed.

Lemma main_iteration_message_witness :
  is_command (Str.strip " Tell me MORE ") = false
  /\ Str.strip " Tell me MORE " = "Tell me MORE"
  /\ main_iteration (example_world [Line " Tell me MORE "] bonjour_service)
     = (inr Continue,
        traced [reply_line (PStr "Bonjour")]
          (snd (get_response "Tell me MORE"
                  (prompted [] (example_world [Line " Tell me MORE "]
                                  bonjour_service))))).
Proof.
  split; [reflexivity|]. split; [reflexivity|].
  apply (main_iteration_message " Tell me MORE " []);
    [reflexivity | reflexivity | discriminate | vm_compute; reflexivity].
Defined.











(** ** How the loop ends *)

Lemma calm_ret {A} (a : A) : calm (mret a).
Proof. intros w r w' [= <- <-]. repeat split. discriminate. Qed.

Lemma calm_raise {A} (e : exn) : is_Exception e = true -> calm (@raise A e).
Proof. intros He w r w' [= <- <-]. repeat split. intros e' [= <-]. exact He. Qed.

Lemma calm_bind {A B} (m : M A) (f : A -> M B) :
  calm m -> (forall a, calm (f a)) -> calm (m ≫= f).
Proof.
  intros Hm Hf w r w' E. rewrite bind_eq in E.
  destruct (m w) as [[e|a] w1] eqn:Em.
  - injection E as <- <-. destruct (Hm _ _ _ Em) as (H1 & H2 & H3 & H4).
    repeat split; try assumption. intros e' [= <-]. apply H4. reflexivity.
  - destruct (Hm _ _ _ Em) as (H1 & H2 & H3 & _).
    destruct (Hf a _ _ _ E) as (H4 & H5 & H6 & H7).
    rewrite H4, H5, H6. auto.
Qed.

Lemma calm_self : calm self.
Proof. intros w r w' [= <- <-]. repeat split. discriminate. Qed.

Lemma calm_set_self c : calm (set_self c).
Proof. intros w r w' [= <- <-]. repeat split. discriminate. Qed.

Lemma calm_emit ev : calm (emit ev).
Proof. intros w r w' [= <- <-]. repeat split. discriminate. Qed.

Lemma calm_print_str s : calm (print_str s).
Proof. apply calm_emit. Qed.

Lemma calm_print args : calm (print args).
Proof. apply calm_emit. Qed.

Lemma calm_lookup_key {A} (d : list (string * A)) k : calm (lookup_key d k).
Proof.
  unfold lookup_key. destruct (dict_get d k);
    [apply calm_ret | apply calm_raise; reflexivity].
Qed.

Lemma calm_for_each {A} (l : list A) (body : A -> M unit) :
  (forall x, calm (body x)) -> calm (for_each l body).
Proof.
  intros Hb. induction l as [|x l IH]; cbn [for_each].
  - apply calm_ret.
  - apply calm_bind; [apply Hb | intros _; exact IH].
Qed.

Lemma calm_read_file f : calm (read_file f).
Proof.
  intros w r w' E. unfold read_file in E.
  destruct (files w !! f) as [[data|]|]; injection E as <- <-; repeat split;
    try discriminate; intros e [= <-]; reflexivity.
Qed.

Lemma calm_write_file f data : calm (write_file f data).
Proof.
  intros w r w' E. unfold write_file in E.
  destruct (files w !! f) as [[d|]|]; injection E as <- <-; repeat split;
    try discriminate; intros e [= <-]; reflexivity.
Qed.

Lemma calm_json_load data : calm (json_load data).
Proof.
  unfold json_load. destruct (JSON.loads data);
    [apply calm_ret | apply calm_raise; reflexivity].
Qed.

Lemma calm_second l : calm (second l).
Proof.
  unfold second. destruct l as [|? [|? ?]];
    first [apply calm_ret | apply calm_raise; reflexivity].
Qed.

Lemma calm_try_except1 {A} (body : M A) c h :
  calm body -> (forall e, calm (h e)) -> calm (try_except body [(c, h)]).
Proof.
  intros Hb Hh w r w' E. unfold try_except in E.
  destruct (body w) as [[e|a] w1] eqn:Eb.
  - destruct (Hb _ _ _ Eb) as (H1 & H2 & H3 & H4). cbn [handle] in E.
    destruct (c e).
    + destruct (Hh e _ _ _ E) as (H5 & H6 & H7 & H8). rewrite H5, H6, H7. auto.
    + injection E as <- <-. auto.
  - injection E as <- <-. exact (Hb _ _ _ Eb).
Qed.

Create HintDb calm.
#[local] Hint Resolve calm_ret calm_self calm_set_self calm_emit calm_print_str
  calm_print calm_lookup_key calm_read_file calm_write_file calm_json_load
  calm_second : calm.

Ltac calm_step :=
  first
    [ solve [ eauto with calm ]
    | apply calm_bind; [ | intros ? ]
    | apply calm_try_except1; [ | intros ? ]
    | apply calm_for_each; intros ? ].

Lemma calm_show_help command : calm (show_help command).
Proof.
  unfold show_help. apply calm_bind; [apply calm_self | intros s].
  destruct command as [c|]; [destruct (_ && _)|]; repeat calm_step;
    match goal with |- calm (let '(_, _) := ?x in _) => destruct x end;
    repeat calm_step.
Qed.

Lemma calm_show_current_role : calm show_current_role.
Proof. unfold show_current_role. repeat calm_step. Qed.

Lemma calm_set_role r : calm (set_role r).
Proof.
  unfold set_role. apply calm_bind; [apply calm_self | intros s].
  destruct (dict_has ROLE_PROMPTS r); repeat calm_step.
Qed.

Lemma calm_clear_history : calm clear_history.
Proof. unfold clear_history. repeat calm_step. Qed.

Lemma calm_save_conversation f : calm (save_conversation f).
Proof. unfold save_conversation. repeat calm_step. Qed.

Lemma calm_load_conversation f : calm (load_conversation f).
Proof. unfold load_conversation. repeat calm_step. Qed.

#[local] Hint Resolve calm_show_help calm_show_current_role calm_set_role
  calm_clear_history calm_save_conversation calm_load_conversation : calm.

Lemma tame_continue : tame (mret Continue).
Proof. intros w r w' [= <- _]. left. reflexivity. Qed.

Lemma tame_bind_calm {A} (m : M A) (f : A -> M loop_ctl) :
  calm m -> (forall a, tame (f a)) -> tame (m ≫= f).
Proof.
  intros Hm Hf w r w' E. rewrite bind_eq in E.
  destruct (m w) as [[e|a] w1] eqn:Em.
  - injection E as <- _. destruct (Hm _ _ _ Em) as (_ & _ & _ & He).
    right. left. exists e. split; [reflexivity | apply He; reflexivity].
  - destruct (Hm _ _ _ Em) as (H1 & H2 & H3 & _).
    destruct (Hf a _ _ _ E) as [H|[H|[H|H]]]; auto.
    + right. right. left. rewrite <- H1. exact H.
    + right. right. right. rewrite <- H2, <- H3. exact H.
Qed.

Lemma tame_input p (f : string -> M loop_ctl) :
  (forall s, tame (f s)) -> tame (input p ≫= f).
Proof.
  intros Hf w r w' E. rewrite bind_eq in E. unfold input in E.
  rewrite bind_eq, emit_traced in E. unfold read_line in E.
  cbn [stdin traced with_trace] in E.
  destruct (stdin w) as [|[s|] rest] eqn:Hin.
  - injection E as <- _. right. left. exists EOFError. split; reflexivity.
  - destruct (Hf s _ _ _ E) as [H|[H|[H|H]]]; auto.
    right. right. left. right. exact H.
  - right. right. left. left. reflexivity.
Qed.

(** If [get_response] does not return, the service call was interrupted. *)
Lemma get_response_interrupted u w e w' :
  get_response u w = (inl e, w') ->
  exists a, service w (calls w) a = InvokeRaises KeyboardInterrupt.
Proof.
  intros E.
  destruct (conversation_history (chat w)) as [| | | |l|] eqn:Hl;
    try (rewrite get_response_not_list in E by (rewrite Hl; discriminate);
         apply caught_inl in E as [E _]; discriminate E).
  rewrite (get_response_eq u l w Hl) in E. cbv zeta in E.
  destruct (request_for _ _) as [e0|a] eqn:Ea.
  { apply caught_inl in E as [-> _].
    apply request_for_Exception in Ea. discriminate Ea. }
  destruct (service w (calls w) a) as [e0|b] eqn:Es.
  - apply caught_inl in E as (-> & _). exists a. exact Es.
  - destruct (reply_of b) as [e0|v] eqn:Eb; [|discriminate E].
    apply caught_inl in E as [-> _].
    apply reply_of_Exception in Eb. discriminate Eb.
Qed.

Lemma tame_message u (f : pyval -> M unit) :
  (forall v, calm (f v)) ->
  tame (response ← get_response u; f response;; mret Continue).
Proof.
  intros Hf w r w' E. rewrite bind_eq in E.
  destruct (get_response u w) as [[e|v] w1] eqn:Eg.
  - right. right. right. exact (get_response_interrupted _ _ _ _ Eg).
  - rewrite bind_eq in E. destruct (f v w1) as [[e|[]] w2] eqn:Ef.
    + injection E as <- _. destruct (Hf v _ _ _ Ef) as (_ & _ & _ & He).
      right. left. exists e. split; [reflexivity | apply He; reflexivity].
    + injection E as <- _. left. reflexivity.
Qed.

(** Apart from [quit], every branch of the tests is tame. *)
Lemma dispatch_tame u :
  String.eqb (Str.lower u) "quit" = false -> tame (dispatch u).
Proof.
  intros Hq. unfold dispatch.
  destruct (String.eqb (Str.lower u) "help");
    [repeat (apply tame_bind_calm; [eauto with calm | intros ?]); apply tame_continue|].
  destruct (Str.startswith (Str.lower u) "help ");
    [repeat (apply tame_bind_calm; [eauto with calm | intros ?]); apply tame_continue|].
  rewrite Hq.
  destruct (String.eqb (Str.lower u) "clear");
    [repeat (apply tame_bind_calm; [eauto with calm | intros ?]); apply tame_continue|].
  destruct (String.eqb (Str.lower u) "save");
    [repeat (apply tame_bind_calm; [eauto with calm | intros ?]); apply tame_continue|].
  destruct (String.eqb (Str.lower u) "load");
    [repeat (apply tame_bind_calm; [eauto with calm | intros ?]); apply tame_continue|].
  destruct (String.eqb (Str.lower u) "role").
  { apply tame_bind_calm; [eauto with calm | intros ?].
    apply tame_bind_calm;
      [apply calm_for_each; intros ?; eauto with calm | intros ?].
    apply tame_bind_calm; [eauto with calm | intros ?].
    apply tame_input. intros line'.
    apply tame_bind_calm; [|intros ?; apply tame_continue].
    destruct (negb _); [|eauto with calm].
    apply calm_bind; [eauto with calm | intros [|]; eauto with calm]. }
  destruct (String.eqb u ""); [apply tame_continue|].
  apply tame_message. intros v. destruct (truthy v); eauto with calm.
Qed.

(** X15. The loop ends in two ways only.  If a turn ends with [break],
    either the line read was [quit] (stripped, in any case), or an
    interrupt came from the keyboard while the program was reading, or the
    service call was interrupted. *)
Theorem main_iteration_break (w w' : world) :
  main_iteration w = (inr Break, w') ->
  (exists s rest, stdin w = Line s :: rest /\ Str.lower (Str.strip s) = "quit")
  \/ In Interrupt (stdin w)
  \/ (exists a, service w (calls w) a = InvokeRaises KeyboardInterrupt).
Proof.
  intros E.
  destruct (stdin w) as [|[s|] rest] eqn:Hin.
  - rewrite (main_iteration_eof w Hin) in E. discriminate E.
  - rewrite (main_iteration_line s rest w Hin) in E.
    destruct (String.eqb (Str.lower (Str.strip s)) "quit") eqn:Hq.
    + left. exists s, rest. split; [reflexivity | apply String.eqb_eq, Hq].
    + destruct (dispatch (Str.strip s) (prompted rest w)) as [r w1] eqn:Ed.
      destruct (dispatch_tame _ Hq _ _ _ Ed) as [->|[(e & -> & He)|[H|H]]].
      * discriminate E.
      * exfalso. destruct e; try discriminate He; discriminate E.
      * right. left. right. exact H.
      * right. right. exact H.
  - right. left. left. reflexivity.
Qed.

Lemma main_iteration_break_witness :
  main_iteration (example_world [Line "Hello"] interrupted_service)
  = (inr Break, snd (main_iteration (example_world [Line "Hello"] interrupted_service)))
  /\ ((exists s rest,
         stdin (example_world [Line "Hello"] interrupted_service) = Line s :: rest
         /\ Str.lower (Str.strip s) = "quit")
      \/ In Interrupt (stdin (example_world [Line "Hello"] interrupted_service))
      \/ (exists a, interrupted_service 0 a = InvokeRaises KeyboardInterrupt)).
Proof.
  assert (E : main_iteration (example_world [Line "Hello"] interrupted_service)
              = (inr Break,
                 snd (main_iteration
                        (example_world [Line "Hello"] interrupted_service))))
    by (vm_compute; reflexivity).
  split; [exact E|].
  exact (main_iteration_break _ _ E).
Defined.

(** ** show_help *)

Lemma mret_run {A} (a : A) (w : world) : (mret a : M A) w = (inr a, w).
Proof. reflexivity. Qed.

Ltac run_prints :=
  repeat (first [ rewrite bind_eq | rewrite print_str_traced
                | rewrite mret_run | rewrite traced_traced ];
          cbv beta iota).

Lemma command_help_keys : dict_keys COMMAND_HELP = command_names.
Proof. reflexivity. Qed.

Lemma show_help_listing (w : world) :
  available_commands (chat w) = COMMAND_HELP ->
  exists evs,
    show_help None w = (inr tt, traced evs w)
    /\ forallb is_print evs = true
    /\ length evs = 20.
Proof.
  intros H. unfold show_help. rewrite bind_eq. cbn [self]. rewrite H.
  eexists. split; [|split].
  - cbn. run_prints. reflexivity.
  - reflexivity.
  - reflexivity.
Qed.

Lemma show_help_unknown (c : string) (w : world) :
  available_commands (chat w) = COMMAND_HELP ->
  c ∉ command_names ->
  show_help (Some c) w = show_help None w.
Proof.
  intros H Hc. unfold show_help. rewrite !bind_eq. cbn [self]. rewrite H.
  destruct (dict_has COMMAND_HELP c) eqn:E.
  - exfalso. apply Hc. rewrite <- command_help_keys. apply dict_has_keys, E.
  - rewrite andb_false_r. reflexivity.
Qed.

Lemma show_help_known (c : string) (w : world) :
  available_commands (chat w) = COMMAND_HELP ->
  c ∈ command_names ->
  exists evs,
    show_help (Some c) w = (inr tt, traced evs w)
    /\ forallb is_print evs = true
    /\ length evs = 3.
Proof.
  intros H Hc. unfold show_help. rewrite bind_eq. cbn [self]. rewrite H.
  unfold command_names in Hc.
  repeat (apply elem_of_cons in Hc as [->|Hc]); [.. | inversion Hc];
    (eexists; split; [|split];
     [ repeat (progress (cbn; run_prints)); reflexivity
     | reflexivity | reflexivity ]).
Qed.

Lemma show_help_lines (command : option string) (w : world) :
  available_commands (chat w) = COMMAND_HELP ->
  exists evs,
    show_help command w = (inr tt, traced evs w)
    /\ forallb is_print evs = true
    /\ length evs
       = match command with
         | Some c => if bool_decide (c ∈ command_names) then 3 else 20
         | None => 20
         end.
Proof.
  intros H. destruct command as [c|]; [|apply show_help_listing, H].
  case_bool_decide as Hc.
  - apply show_help_known; assumption.
  - rewrite (show_help_unknown c w H Hc). apply show_help_listing, H.
Qed.



(** ** The [help <command>] branch: the second word is always there *)


















(** ** Failures on the history file, at the terminal *)







(** ** What no call changes *)

(** X19. Throughout a session (the instance constructed as [main]
    constructs it, then any calls of the methods and turns of the loop,
    however they end), the model identifier and the table of commands are
    the ones [__init__] sets: no method assigns them.  Hence [show_help]
    never fails on a lookup, whatever its argument. *)
Theorem session_constants (w : world) :
  reachable w ->
  model_id (chat w) = "anthropic.claude-3-sonnet-20240229-v1:0"
  /\ available_commands (chat w) = COMMAND_HELP
  /\ forall command, fst (show_help command w) = inr tt.
Proof.
  intros Hr. destruct (reachable_chat_ok w Hr) as (_ & Hm & Hc & _).
  split; [exact Hm|]. split; [exact Hc|]. intros command.
  destruct (show_help_lines command w Hc) as (evs & E & _). rewrite E. reflexivity.
Qed.

Lemma session_constants_witness :
  reachable (snd (run_call (GetResponse "Hello") (example_world [] bonjour_service)))
  /\ model_id
       (chat (snd (run_call (GetResponse "Hello") (example_world [] bonjour_service))))
     = "anthropic.claude-3-sonnet-20240229-v1:0".
Proof.
  assert (H : reachable
                (snd (run_call (GetResponse "Hello")
                        (example_world [] bonjour_service)))).
  { apply (reach_call (example_world [] bonjour_service) (GetResponse "Hello")
             (fst (run_call (GetResponse "Hello") (example_world [] bonjour_service)))).
    - apply reach_init. reflexivity.
    - apply surjective_pairing. }
  split; [exact H|]. apply (session_constants _ H).
Defined.
